(** * Automatic provider / model resolution of the chat component

    Shallow embedding of [chooseProviderAndModel] and
    [resolveAutoProviderModel] (app/components/chat/Chat.client.tsx),
    together with the pieces of JavaScript they rely on: strings as
    sequences of UTF-16 code units, [RegExp.prototype.test] for the
    code-likeness pattern, [Array.prototype.find], and the completion of
    an awaited promise. *)

From Stdlib Require Import List NArith PeanoNat Bool String Ascii Lia.
Import ListNotations.

Set Implicit Arguments.

(** ** JavaScript strings *)

Module JsString.

(** A JavaScript string is a finite sequence of UTF-16 code units;
    [.length] counts code units. *)
Definition code_unit := N.
Definition jsstring := list code_unit.

Definition ch (a : ascii) : code_unit := N_of_ascii a.

(** A source-level string literal (all literals of the component are
    ASCII). *)
Definition lit (s : string) : jsstring := map ch (list_ascii_of_string s).

(** [===] on strings. *)
Fixpoint eqb (s t : jsstring) : bool :=
  match s, t with
  | [], [] => true
  | c :: s', d :: t' => N.eqb c d && eqb s' t'
  | _, _ => false
  end.

(** [needle] occurs in [hay] as a contiguous run of code units. *)
Definition includes (needle hay : jsstring) : Prop :=
  exists pre post, hay = pre ++ needle ++ post.

(** ASCII case folding: [A-Z] go to [a-z], every other code unit is
    kept.  It is one admissible instance of [toLowerCase], used to run
    the resolver on concrete inputs. *)
Definition ascii_lower_unit (c : code_unit) : code_unit :=
  if (65 <=? c)%N && (c <=? 90)%N then (c + 32)%N else c.

Definition ascii_toLowerCase (s : jsstring) : jsstring :=
  map ascii_lower_unit s.

End JsString.
Import JsString.

(** ** Regular expressions and [RegExp.prototype.test] *)

Module RegExp.

(** The constructs the pattern of the component uses: literal
    characters, character ranges, sequencing, alternation and
    repetition. *)
Inductive regex : Type :=
| Fail : regex                              (* matches nothing *)
| Eps : regex                               (* matches the empty string *)
| Chr : code_unit -> regex                  (* one given character *)
| Range : code_unit -> code_unit -> regex   (* [lo-hi] *)
| Seq : regex -> regex -> regex
| Alt : regex -> regex -> regex
| Star : regex -> regex.

(** [r?] and [r+]. *)
Definition Opt (r : regex) : regex := Alt r Eps.
Definition Plus (r : regex) : regex := Seq r (Star r).

(** A run of literal characters. *)
Definition Str (s : jsstring) : regex :=
  fold_right (fun c r => Seq (Chr c) r) Eps s.

(** [a|b|...]. *)
Definition Alts (rs : list regex) : regex := fold_right Alt Fail rs.

Definition in_range (lo hi c : code_unit) : bool :=
  ((lo <=? c) && (c <=? hi))%N.

Fixpoint nullable (r : regex) : bool :=
  match r with
  | Fail => false
  | Eps => true
  | Chr _ => false
  | Range _ _ => false
  | Seq a b => nullable a && nullable b
  | Alt a b => nullable a || nullable b
  | Star _ => true
  end.

(** What is left of [r] to match after reading [c]. *)
Fixpoint deriv (c : code_unit) (r : regex) : regex :=
  match r with
  | Fail => Fail
  | Eps => Fail
  | Chr d => if N.eqb c d then Eps else Fail
  | Range lo hi => if in_range lo hi c then Eps else Fail
  | Seq a b =>
      if nullable a then Alt (Seq (deriv c a) b) (deriv c b)
      else Seq (deriv c a) b
  | Alt a b => Alt (deriv c a) (deriv c b)
  | Star a => Seq (deriv c a) (Star a)
  end.

(** No string at all can be matched any more. *)
Fixpoint dead (r : regex) : bool :=
  match r with
  | Fail => true
  | Eps => false
  | Chr _ => false
  | Range lo hi => (hi <? lo)%N
  | Seq a b => dead a || dead b
  | Alt a b => dead a && dead b
  | Star _ => false
  end.

(** Some prefix of [s] is matched by [r]: the attempt at one start
    index. *)
Fixpoint match_here (r : regex) (s : jsstring) : bool :=
  if nullable r then true
  else if dead r then false
  else match s with
       | [] => false
       | c :: s' => match_here (deriv c r) s'
       end.

(** [r.test(s)] for a pattern without flags: the start indices are tried
    from 0 upwards, and the answer is whether one of them succeeds. *)
Fixpoint test (r : regex) (s : jsstring) : bool :=
  match_here r s ||
  match s with
  | [] => false
  | _ :: s' => test r s'
  end.

(** The strings a pattern denotes. *)
Inductive lang : regex -> jsstring -> Prop :=
| L_eps : lang Eps []
| L_chr c : lang (Chr c) [c]
| L_range lo hi c : in_range lo hi c = true -> lang (Range lo hi) [c]
| L_seq a b u v : lang a u -> lang b v -> lang (Seq a b) (u ++ v)
| L_alt_l a b u : lang a u -> lang (Alt a b) u
| L_alt_r a b u : lang b u -> lang (Alt a b) u
| L_star_nil a : lang (Star a) []
| L_star_app a u v : lang a u -> lang (Star a) v -> lang (Star a) (u ++ v).

End RegExp.
Import RegExp.

(** The pattern of [chooseProviderAndModel]:
    [/```|function|class|<div|const |let |var |import |def |public |private |;|{|\(|<\/?[\w-]+>/] *)

(** [[\w-]]: ASCII letters, digits, underscore, and the hyphen. *)
Definition word_or_hyphen : regex :=
  Alts [ Range (ch "a") (ch "z"); Range (ch "A") (ch "Z");
         Range (ch "0") (ch "9"); Chr (ch "_"); Chr (ch "-") ].

(** [<\/?[\w-]+>] *)
Definition tag_re : regex :=
  Seq (Chr (ch "<"))
    (Seq (Opt (Chr (ch "/")))
       (Seq (Plus word_or_hyphen) (Chr (ch ">")))).

Definition codey_literals : list jsstring :=
  [ lit "```"; lit "function"; lit "class"; lit "<div";
    lit "const "; lit "let "; lit "var "; lit "import "; lit "def ";
    lit "public "; lit "private "; lit ";"; lit "{"; lit "(" ].

Definition codey_re : regex :=
  Alts (map Str codey_literals ++ [ tag_re ]).

(** ** Completion of a JavaScript computation *)

Inductive error : Type :=
| TypeError : error                  (* property read or call on undefined *)
| Thrown : jsstring -> error.        (* any other thrown or rejected value *)

(** How an evaluation, or an awaited promise, ends: with a value, with
    an exception (a rejection), or never. *)
Inductive outcome (A : Type) : Type :=
| Returned : A -> outcome A
| Threw : error -> outcome A
| Pending : outcome A.

Arguments Threw {A} _.
Arguments Pending {A}.

Definition bind {A B : Type} (c : outcome A) (k : A -> outcome B) : outcome B :=
  match c with
  | Returned a => k a
  | Threw e => Threw e
  | Pending => Pending
  end.

Notation "x <- c ;; k" := (bind c (fun x => k))
  (at level 61, c at next level, right associativity).

(** [try { body } catch { handler }] *)
Definition try_catch {A : Type} (body : outcome A) (handler : error -> outcome A)
  : outcome A :=
  match body with
  | Threw e => handler e
  | o => o
  end.

(** ** The resolver, on values of the declared TypeScript types *)

Section Resolver.

(** [ProviderInfo] is declared in ~/types/model, which is not among the
    sources at hand.  The resolver reads [name] only; the other members
    are carried as an opaque payload, which the object literal
    [{ name: 'OpenRouter' }] of the last branch lacks. *)
Variable Payload : Type.

(** [String.prototype.toLowerCase]: the Unicode case mapping is a table
    of the JavaScript engine, taken as given. *)
Variable toLowerCase : jsstring -> jsstring.

Record ProviderInfo : Type := {
  name : jsstring;
  payload : option Payload
}.

(** The argument object.  The declared member [preferred] is never
    read and is left out. *)
Record Opts : Type := {
  message : jsstring;
  hasImages : bool;
  activeProviders : list ProviderInfo
}.

(** The returned object; [model: undefined] is [None]. *)
Record Resolution : Type := {
  provider : ProviderInfo;
  model : option jsstring
}.

(** [activeProviders.find((p) => p.name.toLowerCase() === name.toLowerCase())] *)
Definition byName (activeProviders : list ProviderInfo) (nm : jsstring)
  : option ProviderInfo :=
  find (fun p => JsString.eqb (toLowerCase (name p)) (toLowerCase nm))
       activeProviders.

(** [message || ''] on a string: the empty string is the only falsy
    one. *)
Definition or_empty (message : jsstring) : jsstring :=
  match message with
  | [] => []
  | _ => message
  end.

Definition isCodey (message : jsstring) : bool :=
  test codey_re (or_empty message).

Definition short (message : jsstring) : bool :=
  List.length (or_empty message) <=? 1200.

Definition chooseProviderAndModel (opts : Opts) : Resolution :=
  let isCodey := isCodey (message opts) in
  let short := short (message opts) in
  let hasImages := hasImages opts in
  let lmstudio := byName (activeProviders opts) (lit "LMStudio") in
  let ollama := byName (activeProviders opts) (lit "Ollama") in
  let openrouter := byName (activeProviders opts) (lit "OpenRouter") in
  let openai := byName (activeProviders opts) (lit "OpenAI") in
  match lmstudio, short && negb hasImages with
  | Some lmstudio, true =>
      let model :=
        if isCodey then lit "qwen2.5-coder-7b-instruct"
        else lit "meta-llama-3.1-8b-instruct" in
      {| provider := lmstudio; model := Some model |}
  | _, _ =>
  match ollama, short && negb hasImages with
  | Some ollama, true =>
      let model :=
        if isCodey then lit "deepseek-coder:6.7b" else lit "llama3.1:8b" in
      {| provider := ollama; model := Some model |}
  | _, _ =>
  match openrouter with
  | Some openrouter =>
      if isCodey && short && negb hasImages then
        {| provider := openrouter; model := Some (lit "deepseek/deepseek-coder") |}
      else if hasImages || negb short then
        {| provider := openrouter; model := Some (lit "openai/gpt-4o-mini") |}
      else
        {| provider := openrouter;
           model := Some (lit "meta-llama/llama-3.1-8b-instruct") |}
  | None =>
  match openai with
  | Some openai =>
      if hasImages || negb short then
        {| provider := openai; model := Some (lit "gpt-4o-mini") |}
      else
        {| provider := openai; model := Some (lit "gpt-4o-mini") |}
  | None =>
  match nth_error (activeProviders opts) 0 with
  | Some first => {| provider := first; model := None |}
  | None =>
      {| provider := {| name := lit "OpenRouter"; payload := None |};
         model := Some (lit "meta-llama/llama-3.1-8b-instruct") |}
  end end end end end.

(** What [mod.resolveAutoProviderModel] is on the loaded module.  The
    module is declared to export a function to [Promise<any>]; a
    delegate that answers is taken to answer with a resolution. *)
Inductive member : Type :=
| Missing : member                                   (* typeof is 'undefined' *)
| NotCallable : member                               (* any value that is no function *)
| Callable : (Opts -> outcome Resolution) -> member. (* typeof is 'function' *)

Record ModuleNamespace : Type := {
  mod_resolveAutoProviderModel : member
}.

(** [import_factory] is how
    [await import('~/components/@settings/tabs/providers/service-status/provider-factory')]
    ends; a falsy module value is [Returned None].  The body of [try]
    yields [Some r] when it executed [return r] and [None] when control
    leaves it at its end. *)
Definition resolveAutoProviderModel
    (import_factory : outcome (option ModuleNamespace)) (opts : Opts)
  : outcome Resolution :=
  returned <-
    try_catch
      (mod_ <- import_factory ;;
       match mod_ with
       | Some m =>
           match mod_resolveAutoProviderModel m with
           | Callable f => r <- f opts ;; Returned (Some r)
           | _ => Returned None
           end
       | None => Returned None
       end)
      (fun _ => Returned None) ;;
  match returned with
  | Some r => Returned r
  | None => Returned (chooseProviderAndModel opts)
  end.

End Resolver.

Arguments Missing {Payload}.
Arguments NotCallable {Payload}.

(** ** The resolver on run-time values

    The same function with TypeScript's types erased: [message] and
    [activeProviders] may be [undefined], and so may the [name] of an
    element.  A property read or a method call on [undefined] throws a
    [TypeError]. *)

Module Runtime.
Section Runtime.

Variable Payload : Type.
Variable toLowerCase : jsstring -> jsstring.

Record Object_ : Type := {
  name : option jsstring;
  payload : option Payload
}.

Record Opts : Type := {
  message : option jsstring;
  hasImages : bool;
  activeProviders : option (list Object_)
}.

Record Resolution : Type := {
  provider : Object_;
  model : option jsstring
}.

(** [Array.prototype.find] with a callback that may throw. *)
Fixpoint find (predicate : Object_ -> outcome bool) (l : list Object_)
  : outcome (option Object_) :=
  match l with
  | [] => Returned None
  | p :: l' =>
      b <- predicate p ;;
      if b then Returned (Some p) else find predicate l'
  end.

(** [p.name.toLowerCase() === name.toLowerCase()] *)
Definition name_is (nm : jsstring) (p : Object_) : outcome bool :=
  match name p with
  | Some n => Returned (JsString.eqb (toLowerCase n) (toLowerCase nm))
  | None => Threw TypeError
  end.

Definition byName (activeProviders : option (list Object_)) (nm : jsstring)
  : outcome (option Object_) :=
  match activeProviders with
  | Some ps => find (name_is nm) ps
  | None => Threw TypeError
  end.

(** [message || ''] *)
Definition or_empty (message : option jsstring) : jsstring :=
  match message with
  | Some (c :: s) => c :: s
  | _ => []
  end.

Definition chooseProviderAndModel (opts : Opts) : outcome Resolution :=
  let isCodey := test codey_re (or_empty (message opts)) in
  let short := List.length (or_empty (message opts)) <=? 1200 in
  let hasImages := hasImages opts in
  lmstudio <- byName (activeProviders opts) (lit "LMStudio") ;;
  ollama <- byName (activeProviders opts) (lit "Ollama") ;;
  openrouter <- byName (activeProviders opts) (lit "OpenRouter") ;;
  openai <- byName (activeProviders opts) (lit "OpenAI") ;;
  match lmstudio, short && negb hasImages with
  | Some lmstudio, true =>
      let model :=
        if isCodey then lit "qwen2.5-coder-7b-instruct"
        else lit "meta-llama-3.1-8b-instruct" in
      Returned {| provider := lmstudio; model := Some model |}
  | _, _ =>
  match ollama, short && negb hasImages with
  | Some ollama, true =>
      let model :=
        if isCodey then lit "deepseek-coder:6.7b" else lit "llama3.1:8b" in
      Returned {| provider := ollama; model := Some model |}
  | _, _ =>
  match openrouter with
  | Some openrouter =>
      if isCodey && short && negb hasImages then
        Returned {| provider := openrouter;
                    model := Some (lit "deepseek/deepseek-coder") |}
      else if hasImages || negb short then
        Returned {| provider := openrouter;
                    model := Some (lit "openai/gpt-4o-mini") |}
      else
        Returned {| provider := openrouter;
                    model := Some (lit "meta-llama/llama-3.1-8b-instruct") |}
  | None =>
  match openai with
  | Some openai =>
      if hasImages || negb short then
        Returned {| provider := openai; model := Some (lit "gpt-4o-mini") |}
      else
        Returned {| provider := openai; model := Some (lit "gpt-4o-mini") |}
  | None =>
  (* [activeProviders?.[0]] *)
  let first :=
    match activeProviders opts with
    | Some ps => nth_error ps 0
    | None => None
    end in
  match first with
  | Some first => Returned {| provider := first; model := None |}
  | None =>
      Returned
        {| provider := {| name := Some (lit "OpenRouter"); payload := None |};
           model := Some (lit "meta-llama/llama-3.1-8b-instruct") |}
  end end end end end.

(** An input is well formed when it inhabits the declared parameter
    type: [message] is a string, [activeProviders] an array, and every
    element has a string [name]. *)
Definition well_formed (opts : Opts) : Prop :=
  (exists m, message opts = Some m) /\
  (exists ps, activeProviders opts = Some ps /\
              Forall (fun p => exists n, name p = Some n) ps).

End Runtime.
End Runtime.

(** A typed value seen as a run-time value. *)
Definition erase_provider {Payload : Type} (p : ProviderInfo Payload)
  : Runtime.Object_ Payload :=
  {| Runtime.name := Some (name p); Runtime.payload := payload p |}.

Definition erase_opts {Payload : Type} (opts : Opts Payload)
  : Runtime.Opts Payload :=
  {| Runtime.message := Some (message opts);
     Runtime.hasImages := hasImages opts;
     Runtime.activeProviders := Some (map erase_provider (activeProviders opts)) |}.

Definition erase_resolution {Payload : Type} (r : Resolution Payload)
  : Runtime.Resolution Payload :=
  {| Runtime.provider := erase_provider (provider r);
     Runtime.model := model r |}.

(** ** Sample inputs *)

Definition named (s : string) (k : nat) : ProviderInfo nat :=
  {| name := lit s; payload := Some k |}.

Definition request (m : jsstring) (images : bool) (ps : list (ProviderInfo nat))
  : Opts nat :=
  {| message := m; hasImages := images; activeProviders := ps |}.

(** A message of 1201 code units. *)
Definition long_message : jsstring := repeat (ch "a") 1201.

(** The resolver under ASCII case folding. *)
Definition resolve (m : jsstring) (images : bool) (ps : list (ProviderInfo nat))
  : Resolution nat :=
  chooseProviderAndModel ascii_toLowerCase (request m images ps).

(** ** Words of the specification *)

(** [[\w-]] as a predicate on code units. *)
Definition is_word_or_hyphen (c : code_unit) : bool :=
  in_range (ch "a") (ch "z") c || in_range (ch "A") (ch "Z") c ||
  in_range (ch "0") (ch "9") c || N.eqb c (ch "_") || N.eqb c (ch "-").

(** An opening or closing tag: [<], an optional [/], a non-empty name
    made of word characters and hyphens, [>]. *)
Definition is_tag (w : jsstring) : Prop :=
  exists slash nm,
    w = ch "<" :: slash ++ nm ++ [ch ">"] /\
    (slash = [] \/ slash = [ch "/"]) /\
    nm <> [] /\
    forallb is_word_or_hyphen nm = true.

Section Words.

Variable Payload : Type.
Variable toLowerCase : jsstring -> jsstring.

(** [p] is named [nm], letter case aside. *)
Definition named_as (nm : jsstring) (p : ProviderInfo Payload) : Prop :=
  toLowerCase (name p) = toLowerCase nm.

(** Some active provider is named [nm]. *)
Definition active (nm : jsstring) (opts : Opts Payload) : Prop :=
  exists q, In q (activeProviders opts) /\ named_as nm q.

(** [p] is the first provider of [ps], in order, that is named [nm]. *)
Definition first_named (nm : jsstring) (ps : list (ProviderInfo Payload))
    (p : ProviderInfo Payload) : Prop :=
  exists before after,
    ps = before ++ p :: after /\
    named_as nm p /\
    Forall (fun q => ~ named_as nm q) before.

(** The rule of a local provider (LMStudio, Ollama) applies: the
    provider is active, the message is short and carries no image. *)
Definition local_rule_applies (nm : jsstring) (opts : Opts Payload) : Prop :=
  active nm opts /\
  List.length (message opts) <= 1200 /\
  hasImages opts = false.

(** Delegation fails: the module does not load, has no callable export
    of the expected name, or that export throws on this input. *)
Definition delegation_fails
    (import_factory : outcome (option (ModuleNamespace Payload)))
    (opts : Opts Payload) : Prop :=
  (exists e, import_factory = Threw e) \/
  import_factory = Returned None \/
  (exists m, import_factory = Returned (Some m) /\
             forall f, mod_resolveAutoProviderModel m <> Callable f) \/
  (exists m f e, import_factory = Returned (Some m) /\
                 mod_resolveAutoProviderModel m = Callable f /\
                 f opts = Threw e).

End Words.

(** ** The send paths of the chat component

    [ChatImpl] resolves provider and model once per send, for a message
    typed by the user ([sendMessage]) and for a prompt that arrives in
    the query string, and puts both in front of the outgoing text. *)

Section Send.

Variable Payload : Type.
Variable toLowerCase : jsstring -> jsstring.

(** The code units [String.prototype.trim] strips (WhiteSpace and
    LineTerminator of ECMAScript): a table of the engine, taken as
    given. *)
Variable is_whitespace : code_unit -> bool.

Fixpoint trimStart (s : jsstring) : jsstring :=
  match s with
  | [] => []
  | c :: s' => if is_whitespace c then trimStart s' else s
  end.

Definition trim (s : jsstring) : jsstring :=
  rev (trimStart (rev (trimStart s))).

(** [provider?.name === 'Automatic' || model === 'auto'] *)
Definition automatic (provider : ProviderInfo Payload) (model : jsstring) : bool :=
  JsString.eqb (name provider) (lit "Automatic") || JsString.eqb model (lit "auto").

(** The conditional expression both send paths evaluate:
    [automatic ? await resolveAutoProviderModel({ message, hasImages,
    activeProviders }) : { provider, model }]. *)
Definition resolved
    (import_factory : outcome (option (ModuleNamespace Payload)))
    (provider : ProviderInfo Payload) (model : jsstring)
    (message : jsstring) (hasImages : bool)
    (activeProviders : list (ProviderInfo Payload))
  : outcome (Resolution Payload) :=
  if automatic provider model then
    resolveAutoProviderModel toLowerCase import_factory
      {| message := message; hasImages := hasImages;
         activeProviders := activeProviders |}
  else
    Returned {| provider := provider; model := Some model |}.

(** [`[Model: ${resolvedModel ?? model}]`] *)
Definition MODEL_TAG (resolvedModel : option jsstring) (model : jsstring)
  : jsstring :=
  lit "[Model: " ++
  match resolvedModel with Some m => m | None => model end ++
  lit "]".

(** [`[Provider: ${resolvedProvider?.name ?? provider.name}]`]; a
    resolution always carries a provider with a name, so the right
    operand of [??] is not used. *)
Definition PROVIDER_TAG (resolvedProvider : ProviderInfo Payload) : jsstring :=
  lit "[Provider: " ++ name resolvedProvider ++ lit "]".

(** [`${MODEL_TAG}\n\n${PROVIDER_TAG}\n\n${content}`] *)
Definition tagged (model_tag provider_tag content : jsstring) : jsstring :=
  model_tag ++ [10; 10]%N ++ provider_tag ++ [10; 10]%N ++ content.

(** How [sendMessage] starts: [messageInput || input] is the content, a
    blank content returns at once, a running response is aborted
    instead of sending. *)
Inductive send_start : Type :=
| Ignored : send_start
| Aborted : send_start
| Proceeds : jsstring -> send_start.

Definition sendMessage_start (messageInput : option jsstring) (input : jsstring)
    (isLoading : bool) : send_start :=
  let messageContent :=
    match messageInput with
    | Some (c :: s) => c :: s
    | _ => input
    end in
  match trim messageContent with
  | [] => Ignored
  | _ :: _ => if isLoading then Aborted else Proceeds messageContent
  end.

(** The text of the user message [sendMessage] appends in a started
    chat ([chatStarted] holds, so the starter-template step is not run);
    [None]: nothing is sent.  [imageDataList] holds the attached images.
    [userUpdateArtifact] is [filesToArtifacts(modifiedFiles, ...)] when
    [workbenchStore.getModifiedFiles()] is defined, and [None] when it
    is [undefined]: the artifact goes between the tags and the content.
    The answer of the delegate, declared [any], is taken to be an object
    with the two members, as [Callable] types it. *)
Definition sendMessage_text
    (import_factory : outcome (option (ModuleNamespace Payload)))
    (provider : ProviderInfo Payload) (model : jsstring)
    (messageInput : option jsstring) (input : jsstring) (isLoading : bool)
    (imageDataList : list jsstring)
    (userUpdateArtifact : option jsstring)
    (activeProviders : list (ProviderInfo Payload))
  : option (outcome jsstring) :=
  match sendMessage_start messageInput input isLoading with
  | Proceeds finalMessageContent =>
      let hasImages := 0 <? List.length imageDataList in
      Some (r <- resolved import_factory provider model
                   finalMessageContent hasImages activeProviders ;;
            let '(Build_Resolution resolvedProvider resolvedModel) := r in
            match userUpdateArtifact with
            | Some artifact =>
                Returned (tagged (MODEL_TAG resolvedModel model)
                                 (PROVIDER_TAG resolvedProvider)
                                 (artifact ++ finalMessageContent))
            | None =>
                Returned (tagged (MODEL_TAG resolvedModel model)
                                 (PROVIDER_TAG resolvedProvider)
                                 finalMessageContent)
            end)
  | _ => None
  end.

(** The text appended for a prompt of the query string
    ([searchParams.get('prompt')], [None] when the parameter is absent):
    an absent or empty prompt sends nothing, and the resolver is asked
    with [hasImages: false]. *)
Definition deep_link_text
    (import_factory : outcome (option (ModuleNamespace Payload)))
    (provider : ProviderInfo Payload) (model : jsstring)
    (prompt : option jsstring)
    (activeProviders : list (ProviderInfo Payload))
  : option (outcome jsstring) :=
  match prompt with
  | Some (c :: s) =>
      Some (r <- resolved import_factory provider model
                   (c :: s) false activeProviders ;;
            let '(Build_Resolution resolvedP resolvedM) := r in
            Returned (tagged (MODEL_TAG resolvedM model)
                             (PROVIDER_TAG resolvedP)
                             (c :: s)))
  | _ => None
  end.

(** *** The selection and its cookies *)

(** [String.prototype.isWellFormed]: no lone surrogate, that is, every
    code unit of [0xD800..0xDBFF] is followed by one of [0xDC00..0xDFFF]
    and these occur nowhere else. *)
Fixpoint isWellFormed (s : jsstring) : bool :=
  match s with
  | [] => true
  | c :: s' =>
      if in_range 55296%N 56319%N c then
        match s' with
        | d :: s'' => in_range 56320%N 57343%N d && isWellFormed s''
        | [] => false
        end
      else if in_range 56320%N 57343%N c then false
      else isWellFormed s'
  end.

(** The cookie jar of js-cookie, newest entry first: [Cookies.get] reads
    the value stored last under a name, [undefined] when there is none.
    [Cookies.set] passes name and value through [encodeURIComponent],
    which throws a [URIError] on a lone surrogate: the result is then
    [None] and the jar is as it was.  The browser is taken to keep what
    is written; expiry is left out. *)
Definition cookie_jar : Type := list (jsstring * jsstring).

Definition Cookies_set (jar : cookie_jar) (key value : jsstring)
  : option cookie_jar :=
  if isWellFormed key && isWellFormed value then Some ((key, value) :: jar)
  else None.

Fixpoint Cookies_get (jar : cookie_jar) (key : jsstring) : option jsstring :=
  match jar with
  | [] => None
  | (k, v) :: jar' => if JsString.eqb k key then Some v else Cookies_get jar' key
  end.

(** [DEFAULT_MODEL], [DEFAULT_PROVIDER] and [PROVIDER_LIST] are constants
    of ~/utils/constants, which is not among the sources at hand. *)
Variable DEFAULT_MODEL : jsstring.
Variable DEFAULT_PROVIDER : ProviderInfo Payload.
Variable PROVIDER_LIST : list (ProviderInfo Payload).

(** The state [ChatImpl] keeps about the selection, and the jar. *)
Record selection : Type := {
  selectedModel : jsstring;
  selectedProvider : ProviderInfo Payload;
  jar : cookie_jar
}.

(** The initialisers of [useState]:
    [Cookies.get('selectedModel') || DEFAULT_MODEL] and
    [PROVIDER_LIST.find((p) => p.name === savedProvider) || DEFAULT_PROVIDER]. *)
Definition initial_model (j : cookie_jar) : jsstring :=
  match Cookies_get j (lit "selectedModel") with
  | Some (c :: s) => c :: s
  | _ => DEFAULT_MODEL
  end.

Definition initial_provider (j : cookie_jar) : ProviderInfo Payload :=
  let savedProvider := Cookies_get j (lit "selectedProvider") in
  match find (fun p => match savedProvider with
                       | Some saved => JsString.eqb (name p) saved
                       | None => false
                       end) PROVIDER_LIST with
  | Some p => p
  | None => DEFAULT_PROVIDER
  end.

Definition initial_selection (j : cookie_jar) : selection :=
  {| selectedModel := initial_model j;
     selectedProvider := initial_provider j;
     jar := j |}.

(** The two handlers set the state first and write the cookie next: when
    [Cookies.set] throws, the handler ends there, the state it has set
    stays and the jar is as it was. *)
Definition handleModelChange (st : selection) (newModel : jsstring) : selection :=
  {| selectedModel := newModel;
     selectedProvider := selectedProvider st;
     jar := match Cookies_set (jar st) (lit "selectedModel") newModel with
            | Some j => j
            | None => jar st
            end |}.

Definition handleProviderChange (st : selection) (newProvider : ProviderInfo Payload)
  : selection :=
  match Cookies_set (jar st) (lit "selectedProvider") (name newProvider) with
  | None =>
      {| selectedModel := selectedModel st;
         selectedProvider := newProvider;
         jar := jar st |}
  | Some j =>
      if JsString.eqb (name newProvider) (lit "Automatic") then
        {| selectedModel := lit "auto";
           selectedProvider := newProvider;
           jar := match Cookies_set j (lit "selectedModel") (lit "auto") with
                  | Some j' => j'
                  | None => j
                  end |}
      else
        {| selectedModel := selectedModel st;
           selectedProvider := newProvider;
           jar := j |}
  end.

(** What the user does to the selection. *)
Inductive selection_event : Type :=
| ModelChosen : jsstring -> selection_event
| ProviderChosen : ProviderInfo Payload -> selection_event.

Definition handle (st : selection) (ev : selection_event) : selection :=
  match ev with
  | ModelChosen m => handleModelChange st m
  | ProviderChosen p => handleProviderChange st p
  end.

End Send.

(** ** scripts/rename-visible-branding.mjs

    The script rewrites the word "Bolt" to "Kodora" in the files a glob
    yields, and counts what it changed. *)

(** [String.prototype.includes], [String.prototype.endsWith]. *)
Fixpoint starts_with (needle s : jsstring) : bool :=
  match needle, s with
  | [], _ => true
  | c :: needle', d :: s' => N.eqb c d && starts_with needle' s'
  | _ :: _, [] => false
  end.

Fixpoint includesb (needle s : jsstring) : bool :=
  starts_with needle s ||
  match s with
  | [] => false
  | _ :: s' => includesb needle s'
  end.

Definition ends_with (suffix s : jsstring) : bool :=
  starts_with (rev suffix) (rev s).

Module Branding.

(** [\w] *)
Definition is_word (c : code_unit) : bool :=
  in_range (ch "a") (ch "z") c || in_range (ch "A") (ch "Z") c ||
  in_range (ch "0") (ch "9") c || N.eqb c (ch "_").

(** [/\bBolt\b/] matches at [c1 c2 c3 c4], followed by [rest], when
    [prev_word] tells whether the code unit before [c1] is a word
    character (there is none at the start of the string): no word
    character before, the four letters, no word character after. *)
Definition hit (prev_word : bool) (c1 c2 c3 c4 : code_unit) (rest : jsstring)
  : bool :=
  negb prev_word &&
  JsString.eqb [c1; c2; c3; c4] (lit "Bolt") &&
  negb (match rest with
        | c5 :: _ => is_word c5
        | [] => false
        end).

(** [buf.replace(/\bBolt\b/g, 'Kodora')], from some index on: the
    matches are found left to right, each search resuming after the
    previous match, whose last letter is a word character. *)
Fixpoint replace_from (prev_word : bool) (s : jsstring) {struct s} : jsstring :=
  match s with
  | [] => []
  | c1 :: s1 =>
      match s1 with
      | c2 :: c3 :: c4 :: rest =>
          if hit prev_word c1 c2 c3 c4 rest
          then lit "Kodora" ++ replace_from true rest
          else c1 :: replace_from (is_word c1) s1
      | _ => c1 :: replace_from (is_word c1) s1
      end
  end.

Definition replace_all (buf : jsstring) : jsstring := replace_from false buf.

(** [(buf.match(/\bBolt\b/g) || []).length] *)
Fixpoint count_from (prev_word : bool) (s : jsstring) {struct s} : nat :=
  match s with
  | [] => 0
  | c1 :: s1 =>
      match s1 with
      | c2 :: c3 :: c4 :: rest =>
          if hit prev_word c1 c2 c3 c4 rest
          then S (count_from true rest)
          else count_from (is_word c1) s1
      | _ => count_from (is_word c1) s1
      end
  end.

Definition match_count (buf : jsstring) : nat := count_from false buf.

Section Script.

(** [path.basename] is Node's. *)
Variable basename : jsstring -> jsstring.

(** [--write] on the command line. *)
Variable WRITE : bool.

Definition shouldSkip (file : jsstring) : bool :=
  if JsString.eqb (basename file) (lit "package.json") then true
  else if ends_with (lit ".css") file || ends_with (lit ".scss") file
          || ends_with (lit ".sass") file then true
  else false.

(** The two counters of the script. *)
Record counters : Type := {
  changed : nat;
  filesChanged : nat
}.

(** One turn of the loop over [files], for the file [file] whose content
    is [buf]: the content afterwards, and the counters. *)
Definition visit (file buf : jsstring) (k : counters) : jsstring * counters :=
  if shouldSkip file then (buf, k)
  else if negb (includesb (lit "Bolt") buf) then (buf, k)
  else
    let next := replace_all buf in
    if negb (JsString.eqb next buf) then
      let diffCount := match_count buf in
      (if WRITE then next else buf,
       {| changed := changed k + diffCount; filesChanged := S (filesChanged k) |})
    else (buf, k).

(** The loop over the files the glob yields, each with its content. *)
Fixpoint visit_all (files : list (jsstring * jsstring)) (k : counters)
  : list (jsstring * jsstring) * counters :=
  match files with
  | [] => ([], k)
  | (file, buf) :: files' =>
      let (buf', k') := visit file buf k in
      let (disk, k'') := visit_all files' k' in
      ((file, buf') :: disk, k'')
  end.

Definition run (files : list (jsstring * jsstring))
  : list (jsstring * jsstring) * counters :=
  visit_all files {| changed := 0; filesChanged := 0 |}.

End Script.

End Branding.

(** ** scripts/sync-upstream.sh *)

Module SyncUpstream.

Local Open Scope string_scope.

(** The variables the options set. *)
Record settings : Type := {
  NO_VERIFY_FLAG : string;
  PUSH : bool;
  DO_COMMIT : bool;
  COMMIT_MSG : string;
  MODE : string;
  DRY_RUN : bool
}.

Definition defaults : settings :=
  {| NO_VERIFY_FLAG := "--no-verify";
     PUSH := false;
     DO_COMMIT := false;
     COMMIT_MSG := "chore(sync): local changes";
     MODE := "pick";
     DRY_RUN := false |}.

Inductive parsed : Type :=
| Parsed : settings -> parsed
| Exit : nat -> parsed.          (* [usage; exit n] *)

(** The [while [[ $# -gt 0 ]]; do case "$1" in ... esac; shift; done]
    loop.  [--commit] takes the next argument as message when it is
    neither empty nor of the shape [--*]. *)
Fixpoint parse_flags (s : settings) (args : list string) {struct args} : parsed :=
  match args with
  | [] => Parsed s
  | a :: rest =>
      if String.eqb a "--commit" then
        let s1 := {| NO_VERIFY_FLAG := NO_VERIFY_FLAG s; PUSH := PUSH s;
                     DO_COMMIT := true; COMMIT_MSG := COMMIT_MSG s;
                     MODE := MODE s; DRY_RUN := DRY_RUN s |} in
        match rest with
        | m :: rest' =>
            if negb (String.eqb m "") && negb (String.prefix "--" m) then
              parse_flags
                {| NO_VERIFY_FLAG := NO_VERIFY_FLAG s; PUSH := PUSH s;
                   DO_COMMIT := true; COMMIT_MSG := m;
                   MODE := MODE s; DRY_RUN := DRY_RUN s |} rest'
            else parse_flags s1 rest
        | [] => parse_flags s1 rest
        end
      else if String.eqb a "--push" then
        parse_flags {| NO_VERIFY_FLAG := NO_VERIFY_FLAG s; PUSH := true;
                       DO_COMMIT := DO_COMMIT s; COMMIT_MSG := COMMIT_MSG s;
                       MODE := MODE s; DRY_RUN := DRY_RUN s |} rest
      else if String.eqb a "--merge" then
        parse_flags {| NO_VERIFY_FLAG := NO_VERIFY_FLAG s; PUSH := PUSH s;
                       DO_COMMIT := DO_COMMIT s; COMMIT_MSG := COMMIT_MSG s;
                       MODE := "merge"; DRY_RUN := DRY_RUN s |} rest
      else if String.eqb a "--rebase" then
        parse_flags {| NO_VERIFY_FLAG := NO_VERIFY_FLAG s; PUSH := PUSH s;
                       DO_COMMIT := DO_COMMIT s; COMMIT_MSG := COMMIT_MSG s;
                       MODE := "rebase"; DRY_RUN := DRY_RUN s |} rest
      else if String.eqb a "--dry-run" then
        parse_flags {| NO_VERIFY_FLAG := NO_VERIFY_FLAG s; PUSH := PUSH s;
                       DO_COMMIT := DO_COMMIT s; COMMIT_MSG := COMMIT_MSG s;
                       MODE := MODE s; DRY_RUN := true |} rest
      else if String.eqb a "--no-verify" then
        parse_flags {| NO_VERIFY_FLAG := "--no-verify"; PUSH := PUSH s;
                       DO_COMMIT := DO_COMMIT s; COMMIT_MSG := COMMIT_MSG s;
                       MODE := MODE s; DRY_RUN := DRY_RUN s |} rest
      else if String.eqb a "--verify" then
        parse_flags {| NO_VERIFY_FLAG := ""; PUSH := PUSH s;
                       DO_COMMIT := DO_COMMIT s; COMMIT_MSG := COMMIT_MSG s;
                       MODE := MODE s; DRY_RUN := DRY_RUN s |} rest
      else if String.eqb a "-h" || String.eqb a "--help" then Exit 0
      else Exit 1
  end.

(** A commit of the range [base..bolt-main]: its hash, its subject
    ([git log --format=%s -n 1]), and whether [git cherry-pick -x]
    applies it without conflict when its turn comes. *)
Record commit : Type := {
  hash : string;
  subject : string;
  picks_cleanly : bool
}.

(** The lines of the report that depend on the commits; its header and
    its blank lines are left out. *)
Inductive report_line : Type :=
| Would_pick : string -> string -> report_line    (* [- would pick $c  $subj] *)
| Picked : string -> string -> report_line        (* the line of an applied commit *)
| Conflict : string -> string -> report_line      (* the line of a skipped commit *)
| Totals : nat -> nat -> report_line.             (* [**Applied:** .. | **Skipped (conflict):** ..] *)

Record pick_state : Type := {
  report : list report_line;      (* oldest line first *)
  applied : nat;
  skipped : nat
}.

(** How a stretch of the script ends: at its last command, or with
    [exit] (also the exit [set -e] forces). *)
Inductive ending : Type :=
| Completed : pick_state -> ending
| Exited : nat -> pick_state -> ending.

(** The status of [((x++))]: an arithmetic command fails, with status 1,
    when its expression evaluates to 0, and the value of [x++] is the
    value [x] had. *)
Definition post_increment_status (x : nat) : nat :=
  if Nat.eqb x 0 then 1 else 0.

(** The [for c in "${commits[@]}"] loop, as Bash 4.4 and later run it
    (there the expansion of an empty array is no error under [set -u]).
    The script runs under [set -e]: a command that fails outside a
    condition ends the script with that status. *)
Fixpoint pick_loop (dry_run : bool) (commits : list commit) (st : pick_state)
  : ending :=
  match commits with
  | [] => Completed st
  | c :: rest =>
      if dry_run then
        pick_loop dry_run rest
          {| report := report st ++ [Would_pick (hash c) (subject c)];
             applied := applied st; skipped := skipped st |}
      else if picks_cleanly c then
        let st' := {| report := report st ++ [Picked (hash c) (subject c)];
                      applied := S (applied st); skipped := skipped st |} in
        match post_increment_status (applied st) with
        | 0 => pick_loop dry_run rest st'
        | status => Exited status st'
        end
      else
        let st' := {| report := report st ++ [Conflict (hash c) (subject c)];
                      applied := applied st; skipped := S (skipped st) |} in
        match post_increment_status (skipped st) with
        | 0 => pick_loop dry_run rest st'
        | status => Exited status st'
        end
  end.

(** The cherry-pick branch from [applied=0; skipped=0] to the end of its
    dry-run test: the loop, the totals, and [exit 0] on a dry run. *)
Definition pick_mode (dry_run : bool) (commits : list commit) : ending :=
  match pick_loop dry_run commits {| report := []; applied := 0; skipped := 0 |} with
  | Completed st =>
      let st' := {| report := report st ++ [Totals (applied st) (skipped st)];
                    applied := applied st; skipped := skipped st |} in
      if dry_run then Exited 0 st' else Completed st'
  | Exited status st => Exited status st
  end.

End SyncUpstream.

(** ** Further words *)

Section MoreWords.

Variable Payload : Type.
Variable toLowerCase : jsstring -> jsstring.

(** The delegate was called and answered [o]. *)
Definition delegate_gives
    (import_factory : outcome (option (ModuleNamespace Payload)))
    (opts : Opts Payload) (o : outcome (Resolution Payload)) : Prop :=
  exists m f, import_factory = Returned (Some m) /\
              mod_resolveAutoProviderModel m = Callable f /\
              f opts = o.

(** The lookup of [nm] reaches an element without a name: none of the
    elements before it is named [nm], and all of them have a name. *)
Definition reaches_nameless (nm : jsstring)
    (ps : list (Runtime.Object_ Payload)) : Prop :=
  exists before p after,
    ps = before ++ p :: after /\
    Runtime.name p = None /\
    Forall (fun q => exists n, Runtime.name q = Some n /\
                               toLowerCase n <> toLowerCase nm) before.

End MoreWords.

(** What holds of the settings at every point of the option loop of
    the synchronisation script. *)
Definition sound_settings (s : SyncUpstream.settings) : Prop :=
  SyncUpstream.COMMIT_MSG s <> ""%string /\
  String.prefix "--" (SyncUpstream.COMMIT_MSG s) = false /\
  In (SyncUpstream.MODE s) ["pick"; "merge"; "rebase"]%string /\
  In (SyncUpstream.NO_VERIFY_FLAG s) ["--no-verify"; ""]%string.

(** The options that take no argument and do not end the script. *)
Definition plain_options : list string :=
  ["--push"; "--merge"; "--rebase"; "--dry-run"; "--no-verify"; "--verify"]%string.

(** Space, tab, line feed, vertical tab, form feed and carriage return:
    the ASCII part of what [trim] strips, to run the send paths on
    concrete inputs. *)
Definition ascii_whitespace (c : code_unit) : bool :=
  (N.eqb c 32 || in_range 9 13 c)%N.

(** A selection as the component may hold it. *)
Definition sample_selection : selection nat :=
  {| selectedModel := lit "gpt-4o";
     selectedProvider := named "OpenAI" 1;
     jar := [] |}.

(** * Properties *)

(** ** Strings *)

Lemma eqb_eq (s t : jsstring) : JsString.eqb s t = true <-> s = t.
Proof.
  revert t; induction s as [|c s IH]; intros [|d t]; simpl;
    try (split; [discriminate | discriminate]); try tauto.
  rewrite andb_true_iff, N.eqb_eq, IH. split.
  - intros [-> ->]; reflexivity.
  - intros E; injection E; auto.
Qed.

Lemma eqb_refl (s : jsstring) : JsString.eqb s s = true.
Proof. apply eqb_eq; reflexivity. Qed.

Lemma or_empty_id (m : jsstring) : or_empty m = m.
Proof. destruct m; reflexivity. Qed.

Lemma includes_refl (s : jsstring) : includes s s.
Proof. exists [], []; simpl; now rewrite app_nil_r. Qed.

(** ** The matcher agrees with the language of the pattern *)

Module RegExpFacts.

Create HintDb re.
#[local] Hint Constructors lang : re.

Ltac inv H := inversion H; subst; clear H.

Lemma nullable_lang (r : regex) : nullable r = true <-> lang r [].
Proof.
  induction r; simpl; split; intro H;
    try discriminate; try (now inv H); auto with re.
  - apply andb_true_iff in H as [Ha Hb].
    change (@nil code_unit) with (@nil code_unit ++ []).
    constructor; [apply IHr1 | apply IHr2]; assumption.
  - inv H. match goal with E : _ ++ _ = [] |- _ =>
      apply app_eq_nil in E as [-> ->] end.
    apply andb_true_iff; split; [apply IHr1 | apply IHr2]; assumption.
  - apply orb_true_iff in H as [H|H];
      [apply L_alt_l, IHr1 | apply L_alt_r, IHr2]; assumption.
  - apply orb_true_iff. inv H; [left; apply IHr1 | right; apply IHr2]; assumption.
Qed.

Lemma star_cons (a : regex) (c : code_unit) (w : jsstring) :
  lang (Star a) (c :: w) ->
  exists u v, w = u ++ v /\ lang a (c :: u) /\ lang (Star a) v.
Proof.
  intro H. remember (Star a) as r eqn:Er. remember (c :: w) as s eqn:Es.
  revert w Es. induction H; intros w Es; try discriminate.
  injection Er as ->. destruct u as [|d u]; simpl in Es.
  - apply IHlang2; auto.
  - injection Es as -> <-. exists u, v. auto.
Qed.

Lemma deriv_lang (c : code_unit) (r : regex) (w : jsstring) :
  lang (deriv c r) w <-> lang r (c :: w).
Proof.
  revert w; induction r; intro w; simpl.
  - split; intro H; inv H.
  - split; intro H; inv H.
  - destruct (N.eqb_spec c c0) as [->|Hne]; split; intro H; inv H;
      auto with re; congruence.
  - destruct (in_range c0 c1 c) eqn:E; split; intro H; inv H;
      auto with re; congruence.
  - destruct (nullable r1) eqn:En; split; intro H.
    + inv H.
      * match goal with H : lang (Seq _ _) _ |- _ => inv H end.
        change (c :: ?x ++ ?y) with ((c :: x) ++ y).
        constructor; [apply IHr1 | ]; assumption.
      * change (c :: w) with ([] ++ c :: w).
        constructor; [apply nullable_lang | apply IHr2]; assumption.
    + inv H. destruct u as [|d u]; simpl in *.
      * apply L_alt_r, IHr2. subst; assumption.
      * match goal with E : _ :: _ = _ :: _ |- _ => injection E as -> <- end.
        apply L_alt_l. constructor; [apply IHr1 | ]; assumption.
    + inv H. change (c :: ?x ++ ?y) with ((c :: x) ++ y).
      constructor; [apply IHr1 | ]; assumption.
    + inv H. destruct u as [|d u]; simpl in *.
      * match goal with H : lang r1 [] |- _ => apply nullable_lang in H end.
        congruence.
      * match goal with E : _ :: _ = _ :: _ |- _ => injection E as -> <- end.
        constructor; [apply IHr1 | ]; assumption.
  - split; intro H; inv H;
      [apply L_alt_l, IHr1 | apply L_alt_r, IHr2
      | apply L_alt_l, IHr1 | apply L_alt_r, IHr2]; assumption.
  - split; intro H.
    + inv H. change (c :: ?x ++ ?y) with ((c :: x) ++ y).
      constructor; [apply IHr | ]; assumption.
    + apply star_cons in H as (u & v & -> & Hu & Hv).
      constructor; [apply IHr | ]; assumption.
Qed.

Lemma dead_lang (r : regex) (w : jsstring) : dead r = true -> ~ lang r w.
Proof.
  intros Hd H. induction H; simpl in Hd; try discriminate.
  - unfold in_range in *. apply andb_true_iff in H as [H1 H2].
    apply N.leb_le in H1, H2. apply N.ltb_lt in Hd. lia.
  - apply orb_true_iff in Hd as [Hd|Hd]; auto.
  - apply andb_true_iff in Hd as [Hd _]; auto.
  - apply andb_true_iff in Hd as [_ Hd]; auto.
Qed.

Lemma match_here_spec (r : regex) (s : jsstring) :
  match_here r s = true <-> exists w rest, s = w ++ rest /\ lang r w.
Proof.
  revert r; induction s as [|c s IH]; intro r.
  - simpl. destruct (nullable r) eqn:En.
    + split; auto. intros _. exists [], []. split; auto.
      apply nullable_lang; assumption.
    + split.
      * destruct (dead r); discriminate.
      * intros (w & rest & E & H). symmetry in E.
        apply app_eq_nil in E as [-> ->].
        apply nullable_lang in H. congruence.
  - simpl. destruct (nullable r) eqn:En.
    + split; auto. intros _. exists [], (c :: s). split; auto.
      apply nullable_lang; assumption.
    + destruct (dead r) eqn:Ed.
      * split; [discriminate|]. intros (w & rest & _ & H).
        exfalso. eapply dead_lang; eauto.
      * rewrite IH. split.
        -- intros (w & rest & -> & H). exists (c :: w), rest. split; auto.
           apply deriv_lang; assumption.
        -- intros (w & rest & E & H). destruct w as [|d w].
           ++ apply nullable_lang in H. congruence.
           ++ simpl in E. injection E as <- ->. exists w, rest. split; auto.
              apply deriv_lang; assumption.
Qed.

(** [test] answers whether some contiguous part of the string is in the
    language of the pattern. *)
Lemma test_spec (r : regex) (s : jsstring) :
  test r s = true <-> exists w, lang r w /\ includes w s.
Proof.
  induction s as [|c s IH]; cbn [test]; rewrite orb_true_iff, match_here_spec.
  - split.
    + intros [(w & rest & E & H)|H]; [|discriminate].
      exists w. split; auto. exists [], rest. assumption.
    + intros (w & H & pre & post & E). left.
      destruct pre; [|discriminate]. exists w, post. auto.
  - rewrite IH. split.
    + intros [(w & rest & E & H)|(w & H & pre & post & E)].
      * exists w. split; auto. exists [], rest. assumption.
      * exists w. split; auto. exists (c :: pre), post. simpl; congruence.
    + intros (w & H & pre & post & E). destruct pre as [|d pre]; simpl in E.
      * left. exists w, post. auto.
      * right. injection E as <- ->. exists w. split; auto.
        exists pre, post. reflexivity.
Qed.

Lemma lang_Str (s w : jsstring) : lang (Str s) w <-> w = s.
Proof.
  revert w; induction s as [|c s IH]; intro w; simpl.
  - split; intro H; [now inv H | subst; constructor].
  - split; intro H.
    + inv H. match goal with H : lang (Chr _) _ |- _ => inv H end.
      simpl. f_equal. apply IH. assumption.
    + subst. change (c :: s) with ([c] ++ s).
      constructor; [constructor | apply IH; reflexivity].
Qed.

Lemma lang_Alts (rs : list regex) (w : jsstring) :
  lang (Alts rs) w <-> exists r, In r rs /\ lang r w.
Proof.
  induction rs as [|r rs IH]; simpl.
  - split; [intro H; inv H | intros (r & [] & _)].
  - split.
    + intro H; inv H.
      * exists r; auto.
      * match goal with H : lang (Alts _) _ |- _ =>
          apply IH in H as (r' & Hin & H') end. exists r'; auto.
    + intros (r' & [<-|Hin] & H); [apply L_alt_l; assumption|].
      apply L_alt_r, IH. exists r'; auto.
Qed.

Lemma lang_word_or_hyphen (w : jsstring) :
  lang word_or_hyphen w <-> exists c, w = [c] /\ is_word_or_hyphen c = true.
Proof.
  unfold word_or_hyphen, is_word_or_hyphen. rewrite lang_Alts. split.
  - intros (r & Hin & H). simpl in Hin.
    destruct Hin as [<-|[<-|[<-|[<-|[<-|[]]]]]]; inv H; eexists;
      (split; [reflexivity|]); rewrite !orb_true_iff;
      first [ do 4 left; assumption
            | do 3 left; right; assumption
            | do 2 left; right; assumption
            | left; right; apply N.eqb_refl
            | right; apply N.eqb_refl ].
  - intros (c & -> & H). rewrite !orb_true_iff in H.
    destruct H as [[[[H|H]|H]|H]|H].
    + eexists; split; [left; reflexivity | constructor; assumption].
    + eexists; split; [right; left; reflexivity | constructor; assumption].
    + eexists; split; [do 2 right; left; reflexivity | constructor; assumption].
    + apply N.eqb_eq in H as ->.
      eexists; split; [do 3 right; left; reflexivity | constructor].
    + apply N.eqb_eq in H as ->.
      eexists; split; [do 4 right; left; reflexivity | constructor].
Qed.

Lemma lang_star_word (w : jsstring) :
  lang (Star word_or_hyphen) w <-> forallb is_word_or_hyphen w = true.
Proof.
  split.
  - intro H. remember (Star word_or_hyphen) as r eqn:Er.
    induction H; try discriminate; auto.
    injection Er as ->. apply lang_word_or_hyphen in H as (c & -> & Hc).
    simpl. rewrite Hc. auto.
  - induction w as [|c w IH]; simpl; intro H; [constructor|].
    apply andb_true_iff in H as [Hc Hw]. change (c :: w) with ([c] ++ w).
    constructor; [apply lang_word_or_hyphen; eauto | auto].
Qed.

Lemma lang_tag (w : jsstring) : lang tag_re w <-> is_tag w.
Proof.
  unfold tag_re, is_tag, Opt, Plus. split.
  - intro H. inv H.
    repeat match goal with
           | H : lang (Seq _ _) _ |- _ => inv H
           | H : lang (Chr _) _ |- _ => inv H
           end.
    match goal with H : lang word_or_hyphen _ |- _ =>
      apply lang_word_or_hyphen in H as (c & -> & Hc) end.
    match goal with H : lang (Star _) _ |- _ => apply lang_star_word in H end.
    match goal with
    | H : lang (Alt _ _) ?x, Hw : forallb _ ?v = true |- _ =>
        exists x, (c :: v); inv H
    end.
    + match goal with H : lang (Chr _) _ |- _ => inv H end.
      simpl. rewrite <- ?app_assoc. split; [reflexivity|].
      split; [auto|]. split; [discriminate|].
      apply andb_true_iff; split; assumption.
    + match goal with H : lang Eps _ |- _ => inv H end.
      simpl. rewrite <- ?app_assoc. split; [reflexivity|].
      split; [auto|]. split; [discriminate|].
      apply andb_true_iff; split; assumption.
  - intros (slash & nm & -> & Hs & Hne & Hw).
    destruct nm as [|c nm]; [congruence|]. simpl in Hw.
    apply andb_true_iff in Hw as [Hc Hw].
    change (ch "<" :: slash ++ (c :: nm) ++ [ch ">"])
      with ([ch "<"] ++ slash ++ ([c] ++ nm) ++ [ch ">"]).
    apply L_seq; [constructor|].
    apply L_seq;
      [destruct Hs as [->| ->]; [apply L_alt_r | apply L_alt_l]; constructor|].
    apply L_seq; [|constructor].
    apply L_seq; [apply lang_word_or_hyphen; eauto | apply lang_star_word; assumption].
Qed.

Lemma lang_codey (w : jsstring) :
  lang codey_re w <-> In w codey_literals \/ is_tag w.
Proof.
  unfold codey_re. rewrite lang_Alts. split.
  - intros (r & Hin & H). apply in_app_or in Hin as [Hin|[<-|[]]].
    + apply in_map_iff in Hin as (s & <- & Hs).
      apply lang_Str in H as ->. auto.
    + right. apply lang_tag; assumption.
  - intros [Hin|Ht].
    + exists (Str w). split; [|apply lang_Str; reflexivity].
      apply in_or_app; left. apply in_map; assumption.
    + exists tag_re. split; [|apply lang_tag; assumption].
      apply in_or_app; right; left; reflexivity.
Qed.

End RegExpFacts.

(** ** Provider lookup *)

Section LookupFacts.

Variable Payload : Type.
Variable toLowerCase : jsstring -> jsstring.

Local Abbreviation ProviderInfo := (ProviderInfo Payload).
Local Abbreviation byName := (byName toLowerCase).
Local Abbreviation named_as := (named_as toLowerCase).
Local Abbreviation first_named := (first_named toLowerCase).
Local Abbreviation active := (@active Payload toLowerCase).

Lemma name_test_iff (nm : jsstring) (p : ProviderInfo) :
  JsString.eqb (toLowerCase (name p)) (toLowerCase nm) = true <-> named_as nm p.
Proof. apply eqb_eq. Qed.

Lemma name_test_false (nm : jsstring) (p : ProviderInfo) :
  JsString.eqb (toLowerCase (name p)) (toLowerCase nm) = false <-> ~ named_as nm p.
Proof.
  rewrite <- name_test_iff.
  destruct (JsString.eqb _ _); split; congruence.
Qed.

Lemma byName_first (ps : list ProviderInfo) (nm : jsstring) (p : ProviderInfo) :
  byName ps nm = Some p <-> first_named nm ps p.
Proof.
  unfold byName, first_named. induction ps as [|q ps IH]; simpl.
  - split; [discriminate|]. intros ([|] & after & E & _); discriminate.
  - destruct (JsString.eqb (toLowerCase (name q)) (toLowerCase nm)) eqn:Eq.
    + split.
      * intros [= ->]. exists [], ps. repeat split; auto.
        apply name_test_iff; assumption.
      * intros ([|q' before] & after & E & Hp & Hb); simpl in E.
        -- congruence.
        -- injection E as -> _. inversion Hb; subst.
           apply name_test_iff in Eq. contradiction.
    + rewrite IH. split.
      * intros (before & after & -> & Hp & Hb).
        exists (q :: before), after. repeat split; auto.
        constructor; auto. apply name_test_false; assumption.
      * intros ([|q' before] & after & E & Hp & Hb); simpl in E.
        -- injection E as -> _. apply name_test_iff in Hp. congruence.
        -- injection E as -> ->. inversion Hb; subst.
           exists before, after. auto.
Qed.

Lemma byName_absent (ps : list ProviderInfo) (nm : jsstring) :
  byName ps nm = None <-> forall q, In q ps -> ~ named_as nm q.
Proof.
  unfold byName. split.
  - intros H q Hin. apply name_test_false.
    apply (find_none _ _ H q Hin).
  - intro H. induction ps as [|q ps IH]; simpl; auto.
    destruct (JsString.eqb _ _) eqn:Eq.
    + apply name_test_iff in Eq. exfalso. apply (H q); simpl; auto.
    + apply IH. intros q' Hin. apply H; simpl; auto.
Qed.

Lemma first_named_In (ps : list ProviderInfo) (nm : jsstring) (p : ProviderInfo) :
  first_named nm ps p -> In p ps.
Proof. intros (before & after & -> & _). apply in_elt. Qed.

Lemma active_byName (nm : jsstring) (opts : Opts Payload) :
  active nm opts <-> exists p, byName (activeProviders opts) nm = Some p.
Proof.
  split.
  - intros (q & Hin & Hq).
    destruct (byName (activeProviders opts) nm) as [p|] eqn:E; eauto.
    exfalso. rewrite byName_absent in E. apply (E q); assumption.
  - intros (p & Hp). apply byName_first in Hp.
    exists p. split; [eapply first_named_In; eauto|].
    destruct Hp as (_ & _ & _ & Hp & _); assumption.
Qed.

Lemma not_active_byName (nm : jsstring) (opts : Opts Payload) :
  ~ active nm opts <-> byName (activeProviders opts) nm = None.
Proof.
  rewrite active_byName.
  destruct (byName (activeProviders opts) nm); split; intro H;
    try congruence; try reflexivity.
  - exfalso; eauto.
  - intros (p & Hp); discriminate.
Qed.

Lemma short_iff (m : jsstring) : short m = true <-> List.length m <= 1200.
Proof. unfold short. rewrite or_empty_id. apply Nat.leb_le. Qed.

Lemma short_false_iff (m : jsstring) : short m = false <-> 1200 < List.length m.
Proof. unfold short. rewrite or_empty_id. apply Nat.leb_gt. Qed.

Lemma gate_iff (opts : Opts Payload) :
  short (message opts) && negb (hasImages opts) = true <->
  List.length (message opts) <= 1200 /\ hasImages opts = false.
Proof. rewrite andb_true_iff, negb_true_iff, short_iff. tauto. Qed.

Lemma local_rule_iff (nm : jsstring) (opts : Opts Payload) :
  local_rule_applies toLowerCase nm opts <->
  (exists p, byName (activeProviders opts) nm = Some p) /\
  short (message opts) && negb (hasImages opts) = true.
Proof. unfold local_rule_applies. rewrite active_byName, gate_iff. tauto. Qed.

(** When the rule of a local provider does not apply, the code falls
    to the next test. *)
Lemma local_rule_skipped (nm : jsstring) (opts : Opts Payload) :
  ~ local_rule_applies toLowerCase nm opts ->
  forall (A : Type) (k : ProviderInfo -> A) (next : A),
    match byName (activeProviders opts) nm,
          short (message opts) && negb (hasImages opts) with
    | Some p, true => k p
    | _, _ => next
    end = next.
Proof.
  rewrite local_rule_iff. intros H A k next.
  destruct (byName (activeProviders opts) nm) as [p|]; [|reflexivity].
  destruct (short (message opts) && negb (hasImages opts)); [|reflexivity].
  exfalso. apply H. eauto.
Qed.

End LookupFacts.

(** ** The local heuristic *)

Section ResolverFacts.

Variable Payload : Type.
Variable toLowerCase : jsstring -> jsstring.

Local Abbreviation byName := (byName toLowerCase).
Local Abbreviation named_as := (named_as toLowerCase).
Local Abbreviation first_named := (first_named toLowerCase).
Local Abbreviation active := (@active Payload toLowerCase).
Local Abbreviation local_rule_applies := (@local_rule_applies Payload toLowerCase).
Local Abbreviation chooseProviderAndModel := (@chooseProviderAndModel Payload toLowerCase).

(** The object literal of the last branch. *)
Local Abbreviation synthetic :=
  {| provider := {| name := lit "OpenRouter"; payload := @None Payload |};
     model := Some (lit "meta-llama/llama-3.1-8b-instruct") |}.

(** Every result comes from one of three places: a successful lookup of
    a well-known name (with a model), the head of the list (without a
    model), or the literal of the last branch (on the empty list). *)
Lemma choose_cases (opts : Opts Payload) :
  let r := chooseProviderAndModel opts in
  (exists nm, In nm [lit "LMStudio"; lit "Ollama"; lit "OpenRouter"; lit "OpenAI"] /\
              byName (activeProviders opts) nm = Some (provider r) /\
              model r <> None) \/
  (nth_error (activeProviders opts) 0 = Some (provider r) /\ model r = None) \/
  (activeProviders opts = [] /\ r = synthetic).
Proof.
  unfold chooseProviderAndModel; cbv zeta.
  destruct (byName (activeProviders opts) (lit "LMStudio")) as [p1|] eqn:E1;
  destruct (short (message opts) && negb (hasImages opts)) eqn:Eg;
  try (left; exists (lit "LMStudio"); simpl;
       split; [tauto | split; [assumption | discriminate]]);
  (destruct (byName (activeProviders opts) (lit "Ollama")) as [p2|] eqn:E2;
   try (left; exists (lit "Ollama"); simpl;
        split; [tauto | split; [assumption | discriminate]]));
  (destruct (byName (activeProviders opts) (lit "OpenRouter")) as [p3|] eqn:E3;
   [ left; exists (lit "OpenRouter");
     split; [simpl; tauto |];
     destruct (isCodey (message opts) && short (message opts)
               && negb (hasImages opts));
     [| destruct (hasImages opts || negb (short (message opts)))];
     simpl; (split; [assumption | discriminate]) |]);
  (destruct (byName (activeProviders opts) (lit "OpenAI")) as [p4|] eqn:E4;
   [ left; exists (lit "OpenAI");
     split; [simpl; tauto |];
     destruct (hasImages opts || negb (short (message opts)));
     simpl; (split; [assumption | discriminate]) |]);
  (destruct (activeProviders opts) as [|first rest]; simpl;
   [ right; right; auto | right; left; auto ]).
Qed.

(** C2: with no active provider the heuristic returns the fixed literal:
    a provider named "OpenRouter" and the model
    "meta-llama/llama-3.1-8b-instruct", whatever the message and the
    image flag; [resolve("hello", false, [])] is an instance. *)
Theorem no_active_provider_fallback :
  (forall (m : jsstring) (images : bool),
     chooseProviderAndModel
       {| message := m; hasImages := images; activeProviders := [] |}
     = {| provider := {| name := lit "OpenRouter"; payload := None |};
          model := Some (lit "meta-llama/llama-3.1-8b-instruct") |}) /\
  chooseProviderAndModel
    {| message := lit "hello"; hasImages := false; activeProviders := [] |}
  = {| provider := {| name := lit "OpenRouter"; payload := None |};
       model := Some (lit "meta-llama/llama-3.1-8b-instruct") |}.
Proof.
  assert (G : forall m images,
             chooseProviderAndModel
               {| message := m; hasImages := images; activeProviders := [] |}
             = synthetic).
  { intros m images. unfold chooseProviderAndModel; cbv zeta.
    unfold byName. cbn [activeProviders find nth_error].
    reflexivity. }
  split; [exact G | apply G].
Qed.

(** C4: when a provider named "LMStudio" (letter case aside) is active,
    the message has at most 1200 code units and there is no image, the
    heuristic returns the first such provider, with
    "qwen2.5-coder-7b-instruct" for a code-like message and
    "meta-llama-3.1-8b-instruct" otherwise, whatever else is active. *)
Theorem lmstudio_rule (opts : Opts Payload) :
  active (lit "LMStudio") opts ->
  List.length (message opts) <= 1200 ->
  hasImages opts = false ->
  exists p,
    first_named (lit "LMStudio") (activeProviders opts) p /\
    chooseProviderAndModel opts =
      {| provider := p;
         model := Some (if isCodey (message opts)
                        then lit "qwen2.5-coder-7b-instruct"
                        else lit "meta-llama-3.1-8b-instruct") |}.
Proof.
  intros Ha Hlen Himg.
  apply active_byName in Ha as (p & Hp).
  assert (Hg : short (message opts) && negb (hasImages opts) = true)
    by (apply gate_iff; auto).
  exists p. split; [apply byName_first; assumption|].
  unfold chooseProviderAndModel; cbv zeta.
  rewrite Hp, Hg. reflexivity.
Qed.

(** C5: when a provider named "Ollama" is active, none named "LMStudio"
    is, the message has at most 1200 code units and there is no image,
    the heuristic returns the first Ollama provider with
    "deepseek-coder:6.7b" for a code-like message and "llama3.1:8b"
    otherwise; the model carries a colon and is neither of the LMStudio
    identifiers. *)
Theorem ollama_rule (opts : Opts Payload) :
  active (lit "Ollama") opts ->
  ~ active (lit "LMStudio") opts ->
  List.length (message opts) <= 1200 ->
  hasImages opts = false ->
  exists p,
    first_named (lit "Ollama") (activeProviders opts) p /\
    chooseProviderAndModel opts =
      {| provider := p;
         model := Some (if isCodey (message opts)
                        then lit "deepseek-coder:6.7b"
                        else lit "llama3.1:8b") |} /\
    forall m, model (chooseProviderAndModel opts) = Some m ->
              In (ch ":") m /\
              m <> lit "qwen2.5-coder-7b-instruct" /\
              m <> lit "meta-llama-3.1-8b-instruct".
Proof.
  intros Ha Hno Hlen Himg.
  apply active_byName in Ha as (p & Hp).
  apply not_active_byName in Hno.
  assert (Hg : short (message opts) && negb (hasImages opts) = true)
    by (apply gate_iff; auto).
  assert (E : chooseProviderAndModel opts =
              {| provider := p;
                 model := Some (if isCodey (message opts)
                                then lit "deepseek-coder:6.7b"
                                else lit "llama3.1:8b") |}).
  { unfold chooseProviderAndModel; cbv zeta.
    rewrite Hno, Hp, Hg. reflexivity. }
  exists p. split; [apply byName_first; assumption|]. split; [exact E|].
  rewrite E. cbn [model]. intros m [= <-].
  destruct (isCodey (message opts)); repeat split;
    try (intro D; vm_compute in D; discriminate);
    vm_compute; tauto.
Qed.

(** C6: when a provider named "OpenRouter" is active and neither the
    LMStudio rule nor the Ollama rule applies, the heuristic returns the
    first OpenRouter provider; the model is "deepseek/deepseek-coder" for
    a code-like message of at most 1200 code units without image,
    "openai/gpt-4o-mini" when there is an image or the message is longer
    than 1200 code units, and "meta-llama/llama-3.1-8b-instruct" in the
    remaining case. *)
Theorem openrouter_rule (opts : Opts Payload) :
  active (lit "OpenRouter") opts ->
  ~ local_rule_applies (lit "LMStudio") opts ->
  ~ local_rule_applies (lit "Ollama") opts ->
  exists p,
    first_named (lit "OpenRouter") (activeProviders opts) p /\
    provider (chooseProviderAndModel opts) = p /\
    (isCodey (message opts) = true ->
     List.length (message opts) <= 1200 ->
     hasImages opts = false ->
     model (chooseProviderAndModel opts) = Some (lit "deepseek/deepseek-coder")) /\
    (hasImages opts = true \/ 1200 < List.length (message opts) ->
     model (chooseProviderAndModel opts) = Some (lit "openai/gpt-4o-mini")) /\
    (isCodey (message opts) = false ->
     List.length (message opts) <= 1200 ->
     hasImages opts = false ->
     model (chooseProviderAndModel opts)
     = Some (lit "meta-llama/llama-3.1-8b-instruct")).
Proof.
  intros Ha Hlm Hol.
  apply active_byName in Ha as (p & Hp).
  exists p. split; [apply byName_first; assumption|].
  rewrite <- short_iff, <- short_false_iff.
  unfold chooseProviderAndModel; cbv zeta.
  rewrite (local_rule_skipped Hlm), (local_rule_skipped Hol), Hp.
  destruct (isCodey (message opts)), (short (message opts)), (hasImages opts);
    simpl; repeat split; intros; try reflexivity; try discriminate;
    intuition discriminate.
Qed.

(** C7: when a provider named "OpenAI" is active, neither local rule
    applies and no provider named "OpenRouter" is active, the heuristic
    returns the first OpenAI provider with "gpt-4o-mini", on the
    image-or-long path and on the default path alike. *)
Theorem openai_rule (opts : Opts Payload) :
  active (lit "OpenAI") opts ->
  ~ local_rule_applies (lit "LMStudio") opts ->
  ~ local_rule_applies (lit "Ollama") opts ->
  ~ active (lit "OpenRouter") opts ->
  exists p,
    first_named (lit "OpenAI") (activeProviders opts) p /\
    chooseProviderAndModel opts =
      {| provider := p; model := Some (lit "gpt-4o-mini") |}.
Proof.
  intros Ha Hlm Hol Hno.
  apply active_byName in Ha as (p & Hp).
  apply not_active_byName in Hno.
  exists p. split; [apply byName_first; assumption|].
  unfold chooseProviderAndModel; cbv zeta.
  rewrite (local_rule_skipped Hlm), (local_rule_skipped Hol), Hno, Hp.
  destruct (hasImages opts || negb (short (message opts))); reflexivity.
Qed.

(** C9: a lookup, for each of the four well-known names as for any other
    name, returns the first provider whose name equals the wanted one
    letter case aside, and nothing when there is none; a returned
    provider that bears none of the four well-known names is the first
    element of the list, returned without a model. *)
Theorem lookup_and_last_branch (opts : Opts Payload) :
  (forall nm,
     match byName (activeProviders opts) nm with
     | Some p => first_named nm (activeProviders opts) p
     | None => forall q, In q (activeProviders opts) -> ~ named_as nm q
     end) /\
  (let r := chooseProviderAndModel opts in
   ~ named_as (lit "LMStudio") (provider r) ->
   ~ named_as (lit "Ollama") (provider r) ->
   ~ named_as (lit "OpenRouter") (provider r) ->
   ~ named_as (lit "OpenAI") (provider r) ->
   nth_error (activeProviders opts) 0 = Some (provider r) /\ model r = None).
Proof.
  split.
  - intros nm. destruct (byName (activeProviders opts) nm) as [p|] eqn:E.
    + apply byName_first; assumption.
    + apply byName_absent; assumption.
  - intros r H1 H2 H3 H4.
    destruct (choose_cases opts) as [(nm & Hin & Hby & _)|[H|[_ E]]].
    + exfalso. apply byName_first in Hby as (_ & _ & _ & Hn & _).
      fold r in Hn. simpl in Hin.
      destruct Hin as [<-|[<-|[<-|[<-|[]]]]]; contradiction.
    + exact H.
    + exfalso. apply H3. fold r in E. rewrite E. reflexivity.
Qed.

(** C10: on a non-empty list of active providers the returned provider
    is an element of the list. *)
Theorem chosen_provider_is_active (opts : Opts Payload) :
  activeProviders opts <> [] ->
  In (provider (chooseProviderAndModel opts)) (activeProviders opts).
Proof.
  intro Hne.
  destruct (choose_cases opts) as [(nm & _ & Hby & _)|[[H _]|[E _]]].
  - apply byName_first in Hby. eapply first_named_In; eassumption.
  - eapply nth_error_In; eassumption.
  - contradiction.
Qed.

(** C3: when the module fails to load, or has no callable export named
    resolveAutoProviderModel, or that export throws, the resolver ends
    normally with the result of the local heuristic on the same input. *)
Theorem delegation_failure_falls_back
    (import_factory : outcome (option (ModuleNamespace Payload)))
    (opts : Opts Payload) :
  delegation_fails import_factory opts ->
  resolveAutoProviderModel toLowerCase import_factory opts
  = Returned (chooseProviderAndModel opts).
Proof.
  unfold delegation_fails, resolveAutoProviderModel.
  intros [(e & ->)|[->|[(m & -> & Hm)|(m & f & e & -> & Hm & Hf)]]]; simpl.
  - reflexivity.
  - reflexivity.
  - destruct (mod_resolveAutoProviderModel m) as [| |f]; try reflexivity.
    exfalso. apply (Hm f). reflexivity.
  - rewrite Hm, Hf. reflexivity.
Qed.

End ResolverFacts.

(** ** The heuristic on run-time values *)

Section RuntimeFacts.

Variable Payload : Type.
Variable toLowerCase : jsstring -> jsstring.

Lemma find_erased (nm : jsstring) (ps : list (ProviderInfo Payload)) :
  Runtime.find (Runtime.name_is toLowerCase nm) (map erase_provider ps)
  = Returned (option_map erase_provider (byName toLowerCase ps nm)).
Proof.
  unfold byName. induction ps as [|p ps IH]; simpl; auto.
  unfold Runtime.name_is at 1. simpl.
  destruct (JsString.eqb (toLowerCase (name p)) (toLowerCase nm)); auto.
Qed.

Lemma or_empty_erased (m : jsstring) : Runtime.or_empty (Some m) = or_empty m.
Proof. destruct m; reflexivity. Qed.

Lemma erase_well_formed (opts : Opts Payload) :
  Runtime.well_formed (erase_opts opts).
Proof.
  split; simpl; eauto. eexists; split; [reflexivity|].
  apply Forall_forall. intros p Hp.
  apply in_map_iff in Hp as (q & <- & _). simpl; eauto.
Qed.

(** On a typed input the run-time evaluation ends normally, with the
    value the typed function computes. *)
Lemma runtime_agrees (opts : Opts Payload) :
  Runtime.chooseProviderAndModel toLowerCase (erase_opts opts)
  = Returned (erase_resolution (chooseProviderAndModel toLowerCase opts)).
Proof.
  unfold Runtime.chooseProviderAndModel, chooseProviderAndModel; cbv zeta.
  unfold Runtime.byName, isCodey, short.
  cbn [erase_opts Runtime.activeProviders Runtime.message Runtime.hasImages].
  rewrite !find_erased, or_empty_erased. cbn [bind].
  destruct (byName toLowerCase (activeProviders opts) (lit "LMStudio"));
  destruct (byName toLowerCase (activeProviders opts) (lit "Ollama"));
  destruct (byName toLowerCase (activeProviders opts) (lit "OpenRouter"));
  destruct (byName toLowerCase (activeProviders opts) (lit "OpenAI"));
  destruct (test codey_re (or_empty (message opts)));
  destruct (List.length (or_empty (message opts)) <=? 1200);
  destruct (hasImages opts);
  destruct (activeProviders opts); reflexivity.
Qed.

(** What a lookup finds, on providers that all carry a name, carries a
    name. *)
Lemma find_returns_named (nm : jsstring) (ps : list (Runtime.Object_ Payload)) :
  Forall (fun p => exists n, Runtime.name p = Some n) ps ->
  exists found,
    Runtime.find (Runtime.name_is toLowerCase nm) ps = Returned found /\
    match found with
    | Some p => exists n, Runtime.name p = Some n
    | None => True
    end.
Proof.
  induction 1 as [|p ps (n & Hn) _ (found & IH & Hf)]; simpl.
  - exists None. auto.
  - unfold Runtime.name_is at 1. rewrite Hn. simpl.
    destruct (JsString.eqb (toLowerCase n) (toLowerCase nm)).
    + exists (Some p). split; [reflexivity | eauto].
    + exists found. auto.
Qed.

(** C1: on every well-formed input (a string message, an array of
    providers that each carry a string name) the evaluation of the
    heuristic ends normally, with an object made of a provider, which
    carries a string name as a ProviderInfo does, and an optional model;
    it does not throw. *)
Theorem heuristic_never_throws (opts : Runtime.Opts Payload) :
  Runtime.well_formed opts ->
  exists p n m,
    Runtime.chooseProviderAndModel toLowerCase opts
    = Returned {| Runtime.provider := p; Runtime.model := m |} /\
    Runtime.name p = Some n.
Proof.
  intros [_ (ps & Eps & Hps)].
  unfold Runtime.chooseProviderAndModel; cbv zeta.
  rewrite Eps. unfold Runtime.byName.
  destruct (find_returns_named (lit "LMStudio") Hps) as (o1 & -> & N1).
  destruct (find_returns_named (lit "Ollama") Hps) as (o2 & -> & N2).
  destruct (find_returns_named (lit "OpenRouter") Hps) as (o3 & -> & N3).
  destruct (find_returns_named (lit "OpenAI") Hps) as (o4 & -> & N4).
  cbn [bind].
  assert (F : match nth_error ps 0 with
              | Some q => exists n, Runtime.name q = Some n
              | None => True
              end).
  { destruct ps as [|q ps']; simpl; [exact I|]. inversion Hps; assumption. }
  destruct o1 as [p1|], o2 as [p2|], o3 as [p3|], o4 as [p4|],
    (test codey_re (Runtime.or_empty (Runtime.message opts))),
    (List.length (Runtime.or_empty (Runtime.message opts)) <=? 1200),
    (Runtime.hasImages opts), (nth_error ps 0) as [first|];
    cbn [andb orb negb];
    first [ destruct N1 as (n & Hn); eexists _, n, _;
            split; [reflexivity | exact Hn]
          | destruct N2 as (n & Hn); eexists _, n, _;
            split; [reflexivity | exact Hn]
          | destruct N3 as (n & Hn); eexists _, n, _;
            split; [reflexivity | exact Hn]
          | destruct N4 as (n & Hn); eexists _, n, _;
            split; [reflexivity | exact Hn]
          | destruct F as (n & Hn); eexists _, n, _;
            split; [reflexivity | exact Hn]
          | eexists _, _, _; split; reflexivity ].
Qed.

End RuntimeFacts.

(** ** The code-likeness test *)

(** C8, as the code has it: a message is code-like exactly when it
    contains a code fence, [function], [class], [<div], one of [const],
    [let], [var], [import], [def], [public], [private] followed by a
    space, one of [;], [{], [(], or an opening or closing tag. *)
Theorem isCodey_iff (msg : jsstring) :
  isCodey msg = true <->
  exists tok,
    (In tok [ lit "```"; lit "function"; lit "class"; lit "<div";
              lit "const "; lit "let "; lit "var "; lit "import ";
              lit "def "; lit "public "; lit "private ";
              lit ";"; lit "{"; lit "(" ]
     \/ is_tag tok) /\
    includes tok msg.
Proof.
  unfold isCodey. rewrite or_empty_id, RegExpFacts.test_spec.
  split; intros (tok & H & Hin); exists tok; split; auto;
    apply RegExpFacts.lang_codey; exact H.
Qed.

(** C8 as worded fails: "undefined" contains the keyword [def] and is not
    code-like. *)
Lemma bare_keyword_not_codey :
  includes (lit "def") (lit "undefined") /\ isCodey (lit "undefined") = false.
Proof.
  split.
  - exists (lit "un"), (lit "ined"). reflexivity.
  - vm_compute. reflexivity.
Qed.

(** ** The theorems at sample inputs *)

Ltac is_active p := exists p; split; [simpl; tauto | reflexivity].

Ltac not_active :=
  let q := fresh "q" in
  let Hin := fresh "Hin" in
  let Hq := fresh "Hq" in
  intros (q & Hin & Hq); simpl in Hin;
  repeat (destruct Hin as [<-|Hin]; [vm_compute in Hq; discriminate|]);
  exact Hin.

Ltac rule_without_provider :=
  let Ha := fresh "Ha" in intros [Ha _]; revert Ha; not_active.

Lemma heuristic_never_throws_witness :
  exists p n m,
    Runtime.chooseProviderAndModel ascii_toLowerCase
      {| Runtime.message := Some (lit "hello");
         Runtime.hasImages := false;
         Runtime.activeProviders :=
           Some [ {| Runtime.name := Some (lit "Mistral");
                     Runtime.payload := Some 7 |} ] |}
    = Returned {| Runtime.provider := p; Runtime.model := m |} /\
    Runtime.name p = Some n.
Proof.
  apply heuristic_never_throws. split; simpl.
  - eexists; reflexivity.
  - eexists; split; [reflexivity|]. repeat constructor. simpl. eexists; reflexivity.
Defined.

Lemma delegation_failure_falls_back_witness :
  resolveAutoProviderModel ascii_toLowerCase
    (Threw (Thrown (lit "Cannot find module")))
    (request (lit "hello") false [named "Ollama" 1])
  = Returned (resolve (lit "hello") false [named "Ollama" 1]).
Proof.
  apply (@delegation_failure_falls_back nat ascii_toLowerCase
           (Threw (Thrown (lit "Cannot find module")))
           (request (lit "hello") false [named "Ollama" 1])).
  left. eexists; reflexivity.
Defined.

Lemma lmstudio_rule_witness :
  exists p,
    first_named ascii_toLowerCase (lit "LMStudio")
      [named "Groq" 0; named "lmstudio" 1; named "LMStudio" 2] p /\
    resolve (lit "hello") false
      [named "Groq" 0; named "lmstudio" 1; named "LMStudio" 2]
    = {| provider := p;
         model := Some (if isCodey (lit "hello")
                        then lit "qwen2.5-coder-7b-instruct"
                        else lit "meta-llama-3.1-8b-instruct") |}.
Proof.
  apply (@lmstudio_rule nat ascii_toLowerCase
           (request (lit "hello") false
              [named "Groq" 0; named "lmstudio" 1; named "LMStudio" 2])).
  - is_active (named "lmstudio" 1).
  - simpl. lia.
  - reflexivity.
Defined.

Lemma ollama_rule_witness :
  exists p,
    first_named ascii_toLowerCase (lit "Ollama")
      [named "OpenRouter" 0; named "OLLAMA" 1] p /\
    resolve (lit "def f(x)") false [named "OpenRouter" 0; named "OLLAMA" 1]
    = {| provider := p;
         model := Some (if isCodey (lit "def f(x)")
                        then lit "deepseek-coder:6.7b"
                        else lit "llama3.1:8b") |} /\
    forall m,
      model (resolve (lit "def f(x)") false
               [named "OpenRouter" 0; named "OLLAMA" 1]) = Some m ->
      In (ch ":") m /\
      m <> lit "qwen2.5-coder-7b-instruct" /\
      m <> lit "meta-llama-3.1-8b-instruct".
Proof.
  apply (@ollama_rule nat ascii_toLowerCase
           (request (lit "def f(x)") false
              [named "OpenRouter" 0; named "OLLAMA" 1])).
  - is_active (named "OLLAMA" 1).
  - not_active.
  - simpl. lia.
  - reflexivity.
Defined.

Lemma openrouter_rule_witness :
  provider (resolve long_message false [named "Ollama" 0; named "OpenRouter" 1])
  = named "OpenRouter" 1 /\
  model (resolve long_message false [named "Ollama" 0; named "OpenRouter" 1])
  = Some (lit "openai/gpt-4o-mini").
Proof.
  destruct (@openrouter_rule nat ascii_toLowerCase
              (request long_message false
                 [named "Ollama" 0; named "OpenRouter" 1]))
    as (p & Hp & Hprov & _ & Hlong & _).
  - is_active (named "OpenRouter" 1).
  - rule_without_provider.
  - intros (_ & Hlen & _). cbn [message request] in Hlen.
    unfold long_message in Hlen. rewrite repeat_length in Hlen. lia.
  - split.
    + vm_compute. reflexivity.
    + apply Hlong. right. cbn [message request].
      unfold long_message. rewrite repeat_length. lia.
Defined.

Lemma openai_rule_witness :
  exists p,
    first_named ascii_toLowerCase (lit "OpenAI") [named "openai" 2] p /\
    resolve (lit "hi") true [named "openai" 2]
    = {| provider := p; model := Some (lit "gpt-4o-mini") |}.
Proof.
  apply (@openai_rule nat ascii_toLowerCase
           (request (lit "hi") true [named "openai" 2])).
  - is_active (named "openai" 2).
  - rule_without_provider.
  - rule_without_provider.
  - not_active.
Defined.

Lemma lookup_and_last_branch_witness :
  nth_error [named "Mistral" 5; named "Groq" 6] 0
  = Some (provider (resolve (lit "hello") false [named "Mistral" 5; named "Groq" 6])) /\
  model (resolve (lit "hello") false [named "Mistral" 5; named "Groq" 6]) = None.
Proof.
  destruct (@lookup_and_last_branch nat ascii_toLowerCase
              (request (lit "hello") false [named "Mistral" 5; named "Groq" 6]))
    as [_ H].
  apply H; intro D; vm_compute in D; discriminate.
Defined.

Lemma chosen_provider_is_active_witness :
  In (provider (resolve (lit "hello") true [named "Mistral" 5; named "OpenAI" 6]))
     [named "Mistral" 5; named "OpenAI" 6].
Proof.
  apply (@chosen_provider_is_active nat ascii_toLowerCase
           (request (lit "hello") true [named "Mistral" 5; named "OpenAI" 6])).
  simpl. discriminate.
Defined.

(** ** The examples of the specification *)

Example lmstudio_plain_text :
  resolve (lit "what is a monad") false [named "LMStudio" 0]
  = {| provider := named "LMStudio" 0;
       model := Some (lit "meta-llama-3.1-8b-instruct") |}.
Proof. vm_compute. reflexivity. Qed.

Example lmstudio_code_fence :
  resolve (lit "```js") false [named "LMStudio" 0]
  = {| provider := named "LMStudio" 0;
       model := Some (lit "qwen2.5-coder-7b-instruct") |}.
Proof. vm_compute. reflexivity. Qed.

Example openrouter_with_images :
  resolve (lit "function f") true [named "OpenRouter" 0]
  = {| provider := named "OpenRouter" 0;
       model := Some (lit "openai/gpt-4o-mini") |}.
Proof. vm_compute. reflexivity. Qed.

Example ollama_skipped_on_long_message :
  resolve long_message false [named "Ollama" 0; named "OpenRouter" 1]
  = {| provider := named "OpenRouter" 1;
       model := Some (lit "openai/gpt-4o-mini") |}.
Proof. vm_compute. reflexivity. Qed.

Example lookup_ignores_letter_case :
  byName ascii_toLowerCase [named "ollama" 0; named "LMSTUDIO" 1] (lit "LMStudio")
  = Some (named "LMSTUDIO" 1).
Proof. vm_compute. reflexivity. Qed.

Example undefined_providers_throw :
  Runtime.chooseProviderAndModel (Payload := nat) ascii_toLowerCase
    {| Runtime.message := Some (lit "hello");
       Runtime.hasImages := false;
       Runtime.activeProviders := None |}
  = Threw TypeError.
Proof. reflexivity. Qed.

Example nameless_provider_throws :
  Runtime.chooseProviderAndModel ascii_toLowerCase
    {| Runtime.message := None;
       Runtime.hasImages := false;
       Runtime.activeProviders :=
         Some [ {| Runtime.name := None; Runtime.payload := Some 0 |} ] |}
  = Threw TypeError.
Proof. reflexivity. Qed.

Example delegate_that_throws :
  resolveAutoProviderModel ascii_toLowerCase
    (Returned (Some {| mod_resolveAutoProviderModel :=
                         Callable (fun _ => Threw TypeError) |}))
    (request (lit "hello") false [])
  = Returned (resolve (lit "hello") false []).
Proof. reflexivity. Qed.

Example delegate_answer_is_returned :
  resolveAutoProviderModel ascii_toLowerCase
    (Returned (Some {| mod_resolveAutoProviderModel :=
                         Callable (fun o =>
                           Returned {| provider := named "Groq" 9;
                                       model := Some (message o) |}) |}))
    (request (lit "hello") false [named "LMStudio" 0])
  = Returned {| provider := named "Groq" 9; model := Some (lit "hello") |}.
Proof. reflexivity. Qed.

(** * Further properties of the code *)

(** ** The local heuristic, beyond its rules *)

Section HeuristicFacts.

Variable Payload : Type.
Variable toLowerCase : jsstring -> jsstring.

Local Abbreviation byName := (byName toLowerCase).
Local Abbreviation active := (@active Payload toLowerCase).
Local Abbreviation local_rule_applies := (@local_rule_applies Payload toLowerCase).
Local Abbreviation chooseProviderAndModel := (@chooseProviderAndModel Payload toLowerCase).

(** X1: the heuristic returns no model exactly when some provider is
    active, neither local rule applies and neither "OpenRouter" nor
    "OpenAI" is active; the provider returned is then the first of the
    list.  So a lone LMStudio or Ollama provider gets no model for a long
    message or one with images. *)
Theorem no_model_iff (opts : Opts Payload) :
  (model (chooseProviderAndModel opts) = None <->
   activeProviders opts <> [] /\
   ~ local_rule_applies (lit "LMStudio") opts /\
   ~ local_rule_applies (lit "Ollama") opts /\
   ~ active (lit "OpenRouter") opts /\
   ~ active (lit "OpenAI") opts) /\
  (model (chooseProviderAndModel opts) = None ->
   nth_error (activeProviders opts) 0 = Some (provider (chooseProviderAndModel opts))).
Proof.
  split; [split|].
  - unfold chooseProviderAndModel; cbv zeta.
    rewrite !local_rule_iff, !not_active_byName.
    destruct (byName (activeProviders opts) (lit "LMStudio")) as [p1|] eqn:E1;
    destruct (short (message opts) && negb (hasImages opts)) eqn:Eg;
    try discriminate;
    destruct (byName (activeProviders opts) (lit "Ollama")) as [p2|] eqn:E2;
    try discriminate;
    (destruct (byName (activeProviders opts) (lit "OpenRouter")) as [p3|] eqn:E3;
     [ destruct (isCodey (message opts) && short (message opts)
                 && negb (hasImages opts));
       [| destruct (hasImages opts || negb (short (message opts)))];
       discriminate |]);
    (destruct (byName (activeProviders opts) (lit "OpenAI")) as [p4|] eqn:E4;
     [ destruct (hasImages opts || negb (short (message opts)));
       discriminate |]);
    (destruct (activeProviders opts) as [|first rest]; [discriminate|]);
    intros _; repeat split; try discriminate; try reflexivity;
    intros [(p & Hp) Hg]; discriminate.
  - intros (Hne & Hlm & Hol & Hor & Hoa).
    apply not_active_byName in Hor, Hoa.
    unfold chooseProviderAndModel; cbv zeta.
    rewrite (local_rule_skipped Hlm), (local_rule_skipped Hol), Hor, Hoa.
    destruct (activeProviders opts); [contradiction | reflexivity].
  - intro H. destruct (choose_cases toLowerCase opts)
      as [(nm & _ & _ & Hm)|[[Hh _]|[_ E]]].
    + contradiction.
    + exact Hh.
    + rewrite E in H. discriminate.
Qed.

(** X2: the provider does not depend on what the message says, only on
    whether it is short: two messages on the same side of the 1200
    limit get the same provider (code-likeness moves the model only). *)
Theorem provider_ignores_content (opts : Opts Payload) (other : jsstring) :
  (List.length other <= 1200 <-> List.length (message opts) <= 1200) ->
  provider (chooseProviderAndModel
              {| message := other; hasImages := hasImages opts;
                 activeProviders := activeProviders opts |})
  = provider (chooseProviderAndModel opts).
Proof.
  intro H. rewrite <- !short_iff in H.
  assert (E : short other = short (message opts)).
  { destruct (short other), (short (message opts)); intuition congruence. }
  unfold chooseProviderAndModel; cbv zeta.
  cbn [message hasImages activeProviders]. rewrite E.
  destruct (byName (activeProviders opts) (lit "LMStudio"));
  destruct (byName (activeProviders opts) (lit "Ollama"));
  destruct (byName (activeProviders opts) (lit "OpenRouter"));
  destruct (byName (activeProviders opts) (lit "OpenAI"));
  destruct (isCodey other); destruct (isCodey (message opts));
  destruct (short (message opts)); destruct (hasImages opts);
  destruct (activeProviders opts); reflexivity.
Qed.

(** X3: the model is absent or one of eight fixed identifiers, whatever
    the input. *)
Theorem model_in_table (opts : Opts Payload) :
  In (model (chooseProviderAndModel opts))
     [ None;
       Some (lit "qwen2.5-coder-7b-instruct");
       Some (lit "meta-llama-3.1-8b-instruct");
       Some (lit "deepseek-coder:6.7b");
       Some (lit "llama3.1:8b");
       Some (lit "deepseek/deepseek-coder");
       Some (lit "openai/gpt-4o-mini");
       Some (lit "meta-llama/llama-3.1-8b-instruct");
       Some (lit "gpt-4o-mini") ].
Proof.
  unfold chooseProviderAndModel; cbv zeta.
  destruct (byName (activeProviders opts) (lit "LMStudio"));
  destruct (byName (activeProviders opts) (lit "Ollama"));
  destruct (byName (activeProviders opts) (lit "OpenRouter"));
  destruct (byName (activeProviders opts) (lit "OpenAI"));
  destruct (isCodey (message opts));
  destruct (short (message opts)); destruct (hasImages opts);
  destruct (activeProviders opts); cbn [model andb orb negb nth_error In];
  tauto.
Qed.

End HeuristicFacts.

(** ** The pattern matcher *)

Lemma includes_trans (a b c : jsstring) :
  includes a b -> includes b c -> includes a c.
Proof.
  intros (p1 & q1 & ->) (p2 & q2 & ->).
  exists (p2 ++ p1), (q1 ++ q2). now rewrite <- !app_assoc.
Qed.

(** X4: code-likeness survives embedding: a message that contains a
    code-like message is code-like. *)
Theorem isCodey_monotone (inner outer : jsstring) :
  includes inner outer ->
  isCodey inner = true ->
  isCodey outer = true.
Proof.
  unfold isCodey. rewrite !or_empty_id, !RegExpFacts.test_spec.
  intros Hin (w & Hw & Hi). exists w. split; [assumption|].
  eapply includes_trans; eassumption.
Qed.

(** ** Delegation *)

Section DelegationFacts.

Variable Payload : Type.
Variable toLowerCase : jsstring -> jsstring.

Local Abbreviation resolveAutoProviderModel :=
  (@resolveAutoProviderModel Payload toLowerCase).
Local Abbreviation chooseProviderAndModel :=
  (@chooseProviderAndModel Payload toLowerCase).

(** The ways [resolveAutoProviderModel] can end. *)
Local Abbreviation delegate_gives := (@delegate_gives Payload).

Lemma resolver_outcomes
    (import_factory : outcome (option (ModuleNamespace Payload)))
    (opts : Opts Payload) :
  (exists r, delegate_gives import_factory opts (Returned r) /\
             resolveAutoProviderModel import_factory opts = Returned r) \/
  (delegation_fails import_factory opts /\
   resolveAutoProviderModel import_factory opts
   = Returned (chooseProviderAndModel opts)) \/
  ((import_factory = Pending \/ delegate_gives import_factory opts Pending) /\
   resolveAutoProviderModel import_factory opts = Pending).
Proof.
  unfold resolveAutoProviderModel, delegation_fails, delegate_gives.
  destruct import_factory as [[m|]|e|]; simpl.
  - destruct (mod_resolveAutoProviderModel m) as [| |f] eqn:Em; simpl.
    + right; left. split; [|reflexivity]. right; right; left.
      exists m. split; [reflexivity|]. intros f; congruence.
    + right; left. split; [|reflexivity]. right; right; left.
      exists m. split; [reflexivity|]. intros f; congruence.
    + destruct (f opts) as [r|e|] eqn:Ef; simpl.
      * left. exists r. split; [|reflexivity]. exists m, f. auto.
      * right; left. split; [|reflexivity]. do 3 right. exists m, f, e. auto.
      * right; right. split; [|reflexivity]. right. exists m, f. auto.
  - right; left. split; [|reflexivity]. right; left; reflexivity.
  - right; left. split; [|reflexivity]. left. exists e; reflexivity.
  - right; right. split; [|reflexivity]. left; reflexivity.
Qed.

(** The three ways exclude one another. *)
Lemma delegate_gives_fun
    (import_factory : outcome (option (ModuleNamespace Payload)))
    (opts : Opts Payload) (o1 o2 : outcome (Resolution Payload)) :
  delegate_gives import_factory opts o1 ->
  delegate_gives import_factory opts o2 -> o1 = o2.
Proof.
  intros (m1 & f1 & E1 & M1 & <-) (m2 & f2 & E2 & M2 & <-).
  rewrite E1 in E2. injection E2 as <-. rewrite M1 in M2.
  injection M2 as <-. reflexivity.
Qed.

Lemma delegation_fails_not_given
    (import_factory : outcome (option (ModuleNamespace Payload)))
    (opts : Opts Payload) (r : Resolution Payload) :
  delegation_fails import_factory opts ->
  ~ delegate_gives import_factory opts (Returned r).
Proof.
  intros [(e & ->)|[->|[(m & -> & Hm)|(m & f & e & -> & Hm & Hf)]]]
         (m' & f' & E & M & F); try discriminate.
  - injection E as <-. apply (Hm f'); assumption.
  - injection E as <-. rewrite Hm in M. injection M as <-. congruence.
Qed.

(** X5: [resolveAutoProviderModel] never rejects: no failure of the
    import or of the delegate reaches the caller. *)
Theorem resolver_never_rejects
    (import_factory : outcome (option (ModuleNamespace Payload)))
    (opts : Opts Payload) (e : error) :
  resolveAutoProviderModel import_factory opts <> Threw e.
Proof.
  destruct (resolver_outcomes import_factory opts)
    as [(r & _ & ->)|[[_ ->]|[_ ->]]]; discriminate.
Qed.

(** X6: the resolver returns [r] exactly when the delegate was called
    and returned [r], which is passed on as it is, or delegation failed
    and [r] is the answer of the local heuristic. *)
Theorem resolver_returns_iff
    (import_factory : outcome (option (ModuleNamespace Payload)))
    (opts : Opts Payload) (r : Resolution Payload) :
  resolveAutoProviderModel import_factory opts = Returned r <->
  delegate_gives import_factory opts (Returned r) \/
  (delegation_fails import_factory opts /\ r = chooseProviderAndModel opts).
Proof.
  destruct (resolver_outcomes import_factory opts)
    as [(r' & Hd & E)|[[Hf E]|[Hp E]]]; rewrite E; split.
  - intros [= <-]. auto.
  - intros [Hd'|[Hf _]].
    + f_equal. pose proof (delegate_gives_fun Hd Hd') as [= ->]. reflexivity.
    + exfalso. eapply delegation_fails_not_given; eassumption.
  - intros [= <-]. auto.
  - intros [Hd|[_ ->]]; [|reflexivity].
    exfalso. eapply delegation_fails_not_given; eassumption.
  - discriminate.
  - intros [Hd|[Hf _]]; exfalso.
    + destruct Hp as [->|Hp].
      * destruct Hd as (m & f & D & _); discriminate.
      * pose proof (delegate_gives_fun Hd Hp); discriminate.
    + destruct Hp as [->|(m & f & -> & Hm & Hp)];
        destruct Hf as [(e & D)|[D|[(m' & D & Hm')|(m' & f' & e & D & Hm' & Hf')]]];
        try discriminate.
      * injection D as <-. apply (Hm' f); assumption.
      * injection D as <-. rewrite Hm in Hm'. injection Hm' as <-. congruence.
Qed.

(** X7: the resolver has no timeout of its own: it stays pending
    exactly when the import never settles, or the delegate is called and
    never settles. *)
Theorem resolver_pending_iff
    (import_factory : outcome (option (ModuleNamespace Payload)))
    (opts : Opts Payload) :
  resolveAutoProviderModel import_factory opts = Pending <->
  import_factory = Pending \/ delegate_gives import_factory opts Pending.
Proof.
  destruct (resolver_outcomes import_factory opts)
    as [(r & Hd & E)|[[Hf E]|[Hp E]]]; rewrite E; split;
    try discriminate; auto.
  - intros [->|Hp].
    + destruct Hd as (m & f & D & _); discriminate.
    + pose proof (delegate_gives_fun Hd Hp); discriminate.
  - intros [->|(m & f & -> & Hm & Hp)];
      destruct Hf as [(e & D)|[D|[(m' & D & Hm')|(m' & f' & e & D & Hm' & Hf')]]];
      try discriminate.
    + injection D as <-. exfalso. apply (Hm' f); assumption.
    + injection D as <-. rewrite Hm in Hm'. injection Hm' as <-. congruence.
Qed.

End DelegationFacts.

(** ** When the heuristic throws *)

Section ThrowFacts.

Variable Payload : Type.
Variable toLowerCase : jsstring -> jsstring.

Local Abbreviation reaches_nameless := (@reaches_nameless Payload toLowerCase).

Lemma find_outcome (nm : jsstring) (ps : list (Runtime.Object_ Payload)) :
  (exists found, Runtime.find (Runtime.name_is toLowerCase nm) ps = Returned found
                 /\ ~ reaches_nameless nm ps) \/
  (Runtime.find (Runtime.name_is toLowerCase nm) ps = Threw TypeError
   /\ reaches_nameless nm ps).
Proof.
  induction ps as [|p ps IH]; simpl.
  - left. eexists; split; [reflexivity|].
    intros ([|] & ? & ? & E & _); discriminate.
  - unfold Runtime.name_is at 1 3. destruct (Runtime.name p) as [n|] eqn:En; simpl.
    + destruct (JsString.eqb (toLowerCase n) (toLowerCase nm)) eqn:Eq.
      * left. eexists; split; [reflexivity|].
        intros ([|q before] & p' & after & E & Hn & Hb); simpl in E.
        -- injection E as <- _. congruence.
        -- injection E as <- _. inversion Hb as [|? ? (n' & Hn' & Hneq)]; subst.
           apply eqb_eq in Eq. congruence.
      * destruct IH as [(found & -> & Hno)|[-> Hyes]].
        -- left. eexists; split; [reflexivity|].
           intros ([|q before] & p' & after & E & Hn & Hb); simpl in E.
           ++ injection E as <- _. congruence.
           ++ injection E as <- ->. inversion Hb; subst.
              apply Hno. exists before, p', after. auto.
        -- right. split; [reflexivity|].
           destruct Hyes as (before & p' & after & -> & Hn & Hb).
           exists (p :: before), p', after. repeat split; auto.
           constructor; auto. exists n. split; auto.
           intro E. apply eqb_eq in E. congruence.
    + right. split; [reflexivity|]. exists [], p, ps. auto.
Qed.

(** X8: the evaluation of the heuristic never stays pending and throws
    nothing but a [TypeError]; it throws exactly when [activeProviders]
    is undefined or the lookup of one of the four well-known names
    reaches a provider without a name. *)
Theorem heuristic_throws_iff (opts : Runtime.Opts Payload) :
  Runtime.chooseProviderAndModel toLowerCase opts <> Pending /\
  (forall e, Runtime.chooseProviderAndModel toLowerCase opts = Threw e ->
             e = TypeError) /\
  (Runtime.chooseProviderAndModel toLowerCase opts = Threw TypeError <->
   Runtime.activeProviders opts = None \/
   exists ps nm,
     Runtime.activeProviders opts = Some ps /\
     In nm [lit "LMStudio"; lit "Ollama"; lit "OpenRouter"; lit "OpenAI"] /\
     reaches_nameless nm ps).
Proof.
  unfold Runtime.chooseProviderAndModel; cbv zeta. unfold Runtime.byName.
  destruct (Runtime.activeProviders opts) as [ps|].
  2:{ simpl. repeat split; try discriminate; auto. intros e [= <-]; reflexivity. }
  destruct (find_outcome (lit "LMStudio") ps) as [(o1 & -> & N1)|[-> Y1]].
  2:{ simpl. repeat split; try discriminate; auto.
      - intros e [= <-]; reflexivity.
      - intros _. right. exists ps, (lit "LMStudio"). simpl; auto. }
  destruct (find_outcome (lit "Ollama") ps) as [(o2 & -> & N2)|[-> Y2]].
  2:{ simpl. repeat split; try discriminate; auto.
      - intros e [= <-]; reflexivity.
      - intros _. right. exists ps, (lit "Ollama"). simpl; auto. }
  destruct (find_outcome (lit "OpenRouter") ps) as [(o3 & -> & N3)|[-> Y3]].
  2:{ simpl. repeat split; try discriminate; auto.
      - intros e [= <-]; reflexivity.
      - intros _. right. exists ps, (lit "OpenRouter"). simpl; auto 6. }
  destruct (find_outcome (lit "OpenAI") ps) as [(o4 & -> & N4)|[-> Y4]].
  2:{ simpl. repeat split; try discriminate; auto.
      - intros e [= <-]; reflexivity.
      - intros _. right. exists ps, (lit "OpenAI"). simpl; auto 7. }
  cbn [bind].
  assert (N : ~ exists ps' nm,
               Some ps = Some ps' /\
               In nm [lit "LMStudio"; lit "Ollama"; lit "OpenRouter"; lit "OpenAI"] /\
               reaches_nameless nm ps').
  { intros (ps' & nm & [= <-] & Hin & Hr). simpl in Hin.
    destruct Hin as [<-|[<-|[<-|[<-|[]]]]]; contradiction. }
  destruct o1, o2, o3, o4,
    (test codey_re (Runtime.or_empty (Runtime.message opts))),
    (List.length (Runtime.or_empty (Runtime.message opts)) <=? 1200),
    (Runtime.hasImages opts), (nth_error ps 0); simpl;
    (repeat split; try discriminate;
     intros [D|D]; [discriminate | contradiction]).
Qed.

End ThrowFacts.

(** ** The send paths *)

Section SendFacts.

Variable Payload : Type.
Variable toLowerCase : jsstring -> jsstring.
Variable is_whitespace : code_unit -> bool.

Local Abbreviation trimStart := (trimStart is_whitespace).
Local Abbreviation trim := (trim is_whitespace).
Local Abbreviation sendMessage_start := (sendMessage_start is_whitespace).
Local Abbreviation sendMessage_text :=
  (@sendMessage_text Payload toLowerCase is_whitespace).
Local Abbreviation deep_link_text := (@deep_link_text Payload toLowerCase).
Local Abbreviation active := (@active Payload toLowerCase).
Local Abbreviation local_rule_applies := (@local_rule_applies Payload toLowerCase).






Lemma fallback_on_failure
    (import_factory : outcome (option (ModuleNamespace Payload)))
    (opts : Opts Payload) :
  delegation_fails import_factory opts ->
  resolveAutoProviderModel toLowerCase import_factory opts
  = Returned (chooseProviderAndModel toLowerCase opts).
Proof.
  intro Hf.
  destruct (resolver_outcomes toLowerCase import_factory opts)
    as [(r & Hd & _)|[[_ E]|[Hp _]]].
  - exfalso. eapply delegation_fails_not_given; eassumption.
  - exact E.
  - exfalso.
    destruct Hp as [->|(m & f & -> & Hm & Hp)];
      destruct Hf as [(e & D)|[D|[(m' & D & Hm')|(m' & f' & e & D & Hm' & Hf')]]];
      try discriminate.
    + injection D as <-. apply (Hm' f); assumption.
    + injection D as <-. rewrite Hm in Hm'. injection Hm' as <-. congruence.
Qed.

Lemma head_without_model (opts : Opts Payload) (first : ProviderInfo Payload)
    (rest : list (ProviderInfo Payload)) :
  activeProviders opts = first :: rest ->
  ~ local_rule_applies (lit "LMStudio") opts ->
  ~ local_rule_applies (lit "Ollama") opts ->
  ~ active (lit "OpenRouter") opts ->
  ~ active (lit "OpenAI") opts ->
  chooseProviderAndModel toLowerCase opts = {| provider := first; model := None |}.
Proof.
  intros E Hlm Hol Hor Hoa.
  apply not_active_byName in Hor, Hoa.
  unfold chooseProviderAndModel; cbv zeta.
  rewrite (local_rule_skipped Hlm), (local_rule_skipped Hol), Hor, Hoa, E.
  reflexivity.
Qed.

(** X10: in a started chat, with a provider other than "Automatic" and a
    model other than "auto" selected, the message goes out tagged with
    exactly that model and that provider's name, followed by the
    artifact of the modified files when there are any and by the
    untrimmed content; neither the delegate nor the heuristic is
    consulted, whatever the active providers. *)
Theorem manual_selection_is_sent
    (import_factory : outcome (option (ModuleNamespace Payload)))
    (provider : ProviderInfo Payload) (model : jsstring)
    (messageInput : option jsstring) (input content : jsstring)
    (imageDataList : list jsstring) (userUpdateArtifact : option jsstring)
    (activeProviders : list (ProviderInfo Payload)) :
  name provider <> lit "Automatic" ->
  model <> lit "auto" ->
  sendMessage_start messageInput input false = Proceeds content ->
  sendMessage_text import_factory provider model messageInput input false
                   imageDataList userUpdateArtifact activeProviders
  = Some (Returned (lit "[Model: " ++ model ++ lit "]" ++ [10; 10]%N ++
                    lit "[Provider: " ++ name provider ++ lit "]" ++ [10; 10]%N ++
                    match userUpdateArtifact with
                    | Some artifact => artifact ++ content
                    | None => content
                    end)).
Proof.
  intros Hp Hm Hs. unfold sendMessage_text. rewrite Hs.
  unfold resolved, automatic.
  destruct (JsString.eqb (name provider) (lit "Automatic")) eqn:E1;
    [apply eqb_eq in E1; contradiction|].
  destruct (JsString.eqb model (lit "auto")) eqn:E2;
    [apply eqb_eq in E2; contradiction|].
  cbn [orb bind]. unfold tagged, MODEL_TAG, PROVIDER_TAG.
  destruct userUpdateArtifact; rewrite <- !app_assoc; reflexivity.
Qed.

(** X11: in automatic mode (model "auto"), when delegation fails and the
    heuristic finds no rule for the active providers, the prompt of the
    query string goes out tagged [[Model: auto]] and with the name of
    the first active provider: the placeholder "auto" is sent as the
    model. *)
Theorem auto_is_sent_as_model
    (import_factory : outcome (option (ModuleNamespace Payload)))
    (provider first : ProviderInfo Payload) (prompt : jsstring)
    (rest : list (ProviderInfo Payload)) :
  let opts := {| message := prompt; hasImages := false;
                 activeProviders := first :: rest |} in
  prompt <> [] ->
  delegation_fails import_factory opts ->
  ~ local_rule_applies (lit "LMStudio") opts ->
  ~ local_rule_applies (lit "Ollama") opts ->
  ~ active (lit "OpenRouter") opts ->
  ~ active (lit "OpenAI") opts ->
  deep_link_text import_factory provider (lit "auto") (Some prompt) (first :: rest)
  = Some (Returned (lit "[Model: auto]" ++ [10; 10]%N ++
                    lit "[Provider: " ++ name first ++ lit "]" ++ [10; 10]%N ++
                    prompt)).
Proof.
  intros opts Hne Hf Hlm Hol Hor Hoa.
  unfold deep_link_text. destruct prompt as [|c s]; [contradiction|].
  unfold resolved, automatic. rewrite (eqb_refl (lit "auto")), orb_true_r.
  fold opts. rewrite (fallback_on_failure Hf).
  rewrite (@head_without_model opts first rest eq_refl Hlm Hol Hor Hoa).
  cbn [bind]. unfold tagged, MODEL_TAG, PROVIDER_TAG.
  rewrite <- !app_assoc. reflexivity.
Qed.

End SendFacts.

Lemma split_at_bracket (u u' x x' : jsstring) :
  ~ In (ch "]") u -> ~ In (ch "]") u' ->
  u ++ ch "]" :: x = u' ++ ch "]" :: x' ->
  u = u' /\ x = x'.
Proof.
  revert u'; induction u as [|c u IH]; intros [|c' u'] Hu Hu' E; simpl in *.
  - injection E as ->. auto.
  - injection E as <- _. tauto.
  - injection E as -> _. tauto.
  - injection E as -> E. destruct (IH u') as [-> ->]; auto.
Qed.

(** X13: the tags can be read back: when neither model nor provider
    name contains a closing bracket, the outgoing text determines the
    model, the provider name and the content. *)
Theorem tagged_text_is_unambiguous (Payload : Type)
    (m m' sel sel' content content' : jsstring)
    (p p' : ProviderInfo Payload) :
  ~ In (ch "]") m -> ~ In (ch "]") m' ->
  ~ In (ch "]") (name p) -> ~ In (ch "]") (name p') ->
  tagged (MODEL_TAG (Some m) sel) (PROVIDER_TAG p) content
  = tagged (MODEL_TAG (Some m') sel') (PROVIDER_TAG p') content' ->
  m = m' /\ name p = name p' /\ content = content'.
Proof.
  intros Hm Hm' Hp Hp'. unfold tagged, MODEL_TAG, PROVIDER_TAG.
  rewrite <- !app_assoc. intro E.
  apply app_inv_head in E.
  change (lit "]" ++ ?x) with (ch "]" :: x) in E.
  apply split_at_bracket in E as [-> E]; auto.
  apply app_inv_head in E. apply app_inv_head in E.
  change (lit "]" ++ ?x) with (ch "]" :: x) in E.
  apply split_at_bracket in E as [-> E]; auto.
  apply app_inv_head in E. auto.
Qed.

(** ** The selection and its cookies *)

Section SelectionFacts.

Variable Payload : Type.
Variable DEFAULT_MODEL : jsstring.
Variable DEFAULT_PROVIDER : ProviderInfo Payload.
Variable PROVIDER_LIST : list (ProviderInfo Payload).

Local Abbreviation selection := (selection Payload).
Local Abbreviation initial_model := (initial_model DEFAULT_MODEL).
Local Abbreviation initial_provider :=
  (initial_provider DEFAULT_PROVIDER PROVIDER_LIST).

Lemma Cookies_set_ok (j : cookie_jar) (key value : jsstring) :
  isWellFormed key = true -> isWellFormed value = true ->
  Cookies_set j key value = Some ((key, value) :: j).
Proof. unfold Cookies_set. intros -> ->. reflexivity. Qed.

Lemma Cookies_set_inv (j j' : cookie_jar) (key value : jsstring) :
  Cookies_set j key value = Some j' ->
  j' = (key, value) :: j /\ isWellFormed value = true.
Proof.
  unfold Cookies_set.
  destruct (isWellFormed key); [|discriminate].
  destruct (isWellFormed value); [|discriminate].
  intros [= <-]. auto.
Qed.

(** The cookie holds the model in effect whenever that model can be
    written. *)
Local Abbreviation model_saved st :=
  (isWellFormed (selectedModel st) = true ->
   Cookies_get (jar st) (lit "selectedModel") = Some (selectedModel st)).

Lemma model_saved_after_choice (st : selection) (m : jsstring) :
  model_saved (handleModelChange st m).
Proof.
  unfold handleModelChange. cbn [selectedModel jar]. intro Hw.
  rewrite Cookies_set_ok; [|reflexivity|exact Hw].
  cbn [Cookies_get]. rewrite eqb_refl. reflexivity.
Qed.

Lemma model_saved_kept (st : selection) (ev : selection_event Payload) :
  model_saved st -> model_saved (handle st ev).
Proof.
  intro H. destruct ev as [m|p]; cbn [handle].
  - apply model_saved_after_choice.
  - unfold handleProviderChange.
    destruct (Cookies_set (jar st) (lit "selectedProvider") (name p))
      as [j|] eqn:Ej; [|exact H].
    apply Cookies_set_inv in Ej as [-> _].
    destruct (JsString.eqb (name p) (lit "Automatic")).
    + intros _. reflexivity.
    + exact H.
Qed.

Lemma model_saved_kept_all (evs : list (selection_event Payload)) (st : selection) :
  model_saved st -> model_saved (fold_left (@handle Payload) evs st).
Proof.
  revert st; induction evs as [|ev evs IH]; intros st H; [exact H|].
  cbn [fold_left]. apply IH, model_saved_kept, H.
Qed.

(** X14: once the user has chosen a model, and whatever is chosen
    afterwards, a reload restores the model in effect, provided that
    model is well-formed UTF-16 (on a lone surrogate [Cookies.set]
    throws and the cookie keeps its old value); an empty model is
    replaced by the default. *)
Theorem reload_restores_model (st : selection)
    (before after : list (selection_event Payload)) (m : jsstring) :
  let final :=
    fold_left (@handle Payload) (before ++ ModelChosen Payload m :: after) st in
  isWellFormed (selectedModel final) = true ->
  initial_model (jar final)
  = match selectedModel final with
    | [] => DEFAULT_MODEL
    | c :: s => c :: s
    end.
Proof.
  intros final Hw. unfold initial_model.
  assert (H : Cookies_get (jar final) (lit "selectedModel")
              = Some (selectedModel final)).
  { revert Hw. unfold final. rewrite fold_left_app. cbn [fold_left handle].
    apply model_saved_kept_all, model_saved_after_choice. }
  rewrite H. reflexivity.
Qed.

Lemma auto_kept (st : selection) (ev : selection_event Payload) :
  (forall m, ev <> ModelChosen Payload m) ->
  selectedModel st = lit "auto" ->
  selectedModel (handle st ev) = lit "auto".
Proof.
  intros Hev H. destruct ev as [m|p]; simpl.
  - exfalso. apply (Hev m). reflexivity.
  - unfold handleProviderChange.
    destruct (Cookies_set (jar st) (lit "selectedProvider") (name p));
      [|exact H].
    destruct (JsString.eqb (name p) (lit "Automatic")); simpl; auto.
Qed.

Lemma auto_kept_all (evs : list (selection_event Payload)) (st : selection) :
  (forall m, ~ In (ModelChosen Payload m) evs) ->
  selectedModel st = lit "auto" ->
  selectedModel (fold_left (@handle Payload) evs st) = lit "auto".
Proof.
  revert st; induction evs as [|ev evs IH]; intros st Hev H; simpl; auto.
  apply IH.
  - intros m Hin. apply (Hev m). right. exact Hin.
  - apply auto_kept; auto. intros m ->. apply (Hev m). left. reflexivity.
Qed.

(** X15: automatic mode is left only by choosing a model: after the
    provider "Automatic" was chosen, and whatever providers are chosen
    next, the model is "auto", sends are resolved automatically, and a
    reload starts with the model "auto". *)
Theorem automatic_sticks (st : selection) (p : ProviderInfo Payload)
    (evs : list (selection_event Payload)) :
  name p = lit "Automatic" ->
  (forall m, ~ In (ModelChosen Payload m) evs) ->
  let final := fold_left (@handle Payload) evs (handleProviderChange st p) in
  selectedModel final = lit "auto" /\
  automatic (selectedProvider final) (selectedModel final) = true /\
  initial_model (jar final) = lit "auto".
Proof.
  intros Hp Hev final.
  assert (E : handleProviderChange st p
              = {| selectedModel := lit "auto";
                   selectedProvider := p;
                   jar := (lit "selectedModel", lit "auto")
                          :: (lit "selectedProvider", lit "Automatic")
                          :: jar st |}).
  { unfold handleProviderChange. rewrite Hp.
    rewrite Cookies_set_ok; [|reflexivity|reflexivity].
    rewrite eqb_refl.
    rewrite Cookies_set_ok; [|reflexivity|reflexivity]. reflexivity. }
  assert (H : selectedModel final = lit "auto").
  { apply auto_kept_all; auto. rewrite E. reflexivity. }
  split; [exact H|]. split.
  - unfold automatic. rewrite H, eqb_refl. apply orb_true_r.
  - unfold initial_model.
    assert (S : model_saved final).
    { apply model_saved_kept_all. rewrite E. intros _. reflexivity. }
    rewrite S; rewrite H; reflexivity.
Qed.

(** X16: after a provider with a well-formed name was chosen, a reload
    finds a provider of the same name when the list of providers has
    one, and the default provider when it has none (on a lone surrogate
    in the name [Cookies.set] throws and the cookie keeps its old
    value). *)
Theorem reload_restores_provider (st : selection) (p : ProviderInfo Payload) :
  isWellFormed (name p) = true ->
  let j := jar (handleProviderChange st p) in
  (In p PROVIDER_LIST ->
   name (initial_provider j) = name p /\ In (initial_provider j) PROVIDER_LIST) /\
  ((forall q, In q PROVIDER_LIST -> name q <> name p) ->
   initial_provider j = DEFAULT_PROVIDER).
Proof.
  intros Hw j.
  assert (C : Cookies_get j (lit "selectedProvider") = Some (name p)).
  { unfold j, handleProviderChange.
    rewrite Cookies_set_ok; [|reflexivity|exact Hw].
    destruct (JsString.eqb (name p) (lit "Automatic")).
    - rewrite Cookies_set_ok; [|reflexivity|reflexivity].
      cbn [jar Cookies_get]. rewrite eqb_refl. reflexivity.
    - cbn [jar Cookies_get]. rewrite eqb_refl. reflexivity. }
  unfold initial_provider. cbv zeta. rewrite C. split.
  - intro Hin.
    destruct (find (fun q => JsString.eqb (name q) (name p)) PROVIDER_LIST)
      as [q|] eqn:E.
    + apply find_some in E as [Hq E]. apply eqb_eq in E. auto.
    + exfalso. pose proof (find_none _ _ E p Hin) as D. cbv beta in D.
      rewrite eqb_refl in D. discriminate.
  - intro Hno.
    destruct (find (fun q => JsString.eqb (name q) (name p)) PROVIDER_LIST)
      as [q|] eqn:E; [|reflexivity].
    apply find_some in E as [Hq E]. apply eqb_eq in E.
    exfalso. apply (Hno q); assumption.
Qed.

End SelectionFacts.

(** ** The branding script *)

Module BrandingFacts.
Import Branding.

Lemma scan_ind (P : bool -> jsstring -> Prop) :
  (forall b, P b []) ->
  (forall b c1 c2 c3 c4 rest,
     hit b c1 c2 c3 c4 rest = true ->
     P true rest -> P b (c1 :: c2 :: c3 :: c4 :: rest)) ->
  (forall b c1 s1,
     (forall c2 c3 c4 rest,
        s1 = c2 :: c3 :: c4 :: rest -> hit b c1 c2 c3 c4 rest = false) ->
     P (is_word c1) s1 -> P b (c1 :: s1)) ->
  forall b s, P b s.
Proof.
  intros Hnil Hhit Hmiss b s.
  assert (G : forall n s b, List.length s <= n -> P b s).
  { clear b s. induction n as [|n IH]; intros s b Hlen.
    - destruct s; [apply Hnil | simpl in Hlen; lia].
    - destruct s as [|c1 s1]; [apply Hnil|]. simpl in Hlen.
      destruct s1 as [|c2 [|c3 [|c4 rest]]];
        try (apply Hmiss; [intros; discriminate | apply IH; simpl in *; lia]).
      destruct (hit b c1 c2 c3 c4 rest) eqn:Eh.
      + apply Hhit; auto. apply IH. simpl in Hlen. lia.
      + apply Hmiss; [|apply IH; simpl in *; lia].
        intros ? ? ? ? [= <- <- <- <-]. exact Eh. }
  apply (G (List.length s)). lia.
Qed.

Lemma replace_hit b c1 c2 c3 c4 rest :
  hit b c1 c2 c3 c4 rest = true ->
  replace_from b (c1 :: c2 :: c3 :: c4 :: rest)
  = lit "Kodora" ++ replace_from true rest.
Proof. intro H. cbn [replace_from]. rewrite H. reflexivity. Qed.

Lemma replace_miss b c1 s1 :
  (forall c2 c3 c4 rest,
     s1 = c2 :: c3 :: c4 :: rest -> hit b c1 c2 c3 c4 rest = false) ->
  replace_from b (c1 :: s1) = c1 :: replace_from (is_word c1) s1.
Proof.
  intro H. destruct s1 as [|c2 [|c3 [|c4 rest]]]; try reflexivity.
  cbn [replace_from]. rewrite (H _ _ _ _ eq_refl). reflexivity.
Qed.

Lemma count_hit b c1 c2 c3 c4 rest :
  hit b c1 c2 c3 c4 rest = true ->
  count_from b (c1 :: c2 :: c3 :: c4 :: rest) = S (count_from true rest).
Proof. intro H. cbn [count_from]. rewrite H. reflexivity. Qed.

Lemma count_miss b c1 s1 :
  (forall c2 c3 c4 rest,
     s1 = c2 :: c3 :: c4 :: rest -> hit b c1 c2 c3 c4 rest = false) ->
  count_from b (c1 :: s1) = count_from (is_word c1) s1.
Proof.
  intro H. destruct s1 as [|c2 [|c3 [|c4 rest]]]; try reflexivity.
  cbn [count_from]. rewrite (H _ _ _ _ eq_refl). reflexivity.
Qed.

Lemma length_from (b : bool) (s : jsstring) :
  List.length (replace_from b s) = List.length s + 2 * count_from b s.
Proof.
  revert b s. apply scan_ind.
  - reflexivity.
  - intros b c1 c2 c3 c4 rest Hh IH.
    rewrite (replace_hit _ _ _ _ _ _ Hh), (count_hit _ _ _ _ _ _ Hh).
    rewrite length_app, IH. simpl. lia.
  - intros b c1 s1 Hm IH.
    rewrite (replace_miss _ _ Hm), (count_miss _ _ Hm). simpl. rewrite IH. lia.
Qed.

Lemma same_from_iff (b : bool) (s : jsstring) :
  replace_from b s = s <-> count_from b s = 0.
Proof.
  split.
  - intro E. pose proof (length_from b s) as L. rewrite E in L. lia.
  - revert b s. apply (scan_ind (fun b s => count_from b s = 0 -> replace_from b s = s)).
    + reflexivity.
    + intros b c1 c2 c3 c4 rest Hh _. rewrite (count_hit _ _ _ _ _ _ Hh).
      discriminate.
    + intros b c1 s1 Hm IH. rewrite (replace_miss _ _ Hm), (count_miss _ _ Hm).
      intro H. f_equal. apply IH, H.
Qed.

Lemma after_word (s : jsstring) :
  replace_from true s
  = match s with
    | [] => []
    | c :: s' => c :: replace_from (is_word c) s'
    end.
Proof. destruct s as [|c1 [|c2 [|c3 [|c4 rest]]]]; reflexivity. Qed.

Lemma hit_inv b c1 c2 c3 c4 rest :
  hit b c1 c2 c3 c4 rest = true ->
  b = false /\ c1 = ch "B" /\ c2 = ch "o" /\ c3 = ch "l" /\ c4 = ch "t" /\
  match rest with c5 :: _ => is_word c5 = false | [] => True end.
Proof.
  unfold hit. rewrite !andb_true_iff, !negb_true_iff, eqb_eq.
  intros [[Hb E] Hr]. injection E as -> -> -> ->.
  repeat split; auto. destruct rest; auto.
Qed.

Lemma hit_intro c5s :
  match c5s with c5 :: _ => is_word c5 = false | [] => True end ->
  hit false (ch "B") (ch "o") (ch "l") (ch "t") c5s = true.
Proof. unfold hit. destruct c5s as [|c5 r]; simpl; [auto | intros ->; auto]. Qed.

(** Replacing creates no match. *)
Lemma no_new_hit b c1 s1 :
  (forall c2 c3 c4 rest,
     s1 = c2 :: c3 :: c4 :: rest -> hit b c1 c2 c3 c4 rest = false) ->
  forall c2 c3 c4 rest,
    replace_from (is_word c1) s1 = c2 :: c3 :: c4 :: rest ->
    hit b c1 c2 c3 c4 rest = false.
Proof.
  intros Hm c2 c3 c4 rest E.
  destruct (hit b c1 c2 c3 c4 rest) eqn:Eh; [|reflexivity]. exfalso.
  apply hit_inv in Eh as (-> & -> & -> & -> & -> & Hr).
  change (is_word (ch "B")) with true in E. rewrite after_word in E.
  destruct s1 as [|x2 s2]; [discriminate|]. injection E as -> E.
  change (is_word (ch "o")) with true in E. rewrite after_word in E.
  destruct s2 as [|x3 s3]; [discriminate|]. injection E as -> E.
  change (is_word (ch "l")) with true in E. rewrite after_word in E.
  destruct s3 as [|x4 s4]; [discriminate|]. injection E as -> E.
  change (is_word (ch "t")) with true in E. rewrite after_word in E.
  specialize (Hm _ _ _ s4 eq_refl). rewrite hit_intro in Hm; [discriminate|].
  destruct s4 as [|x5 s5]; [exact I|]. subst rest. exact Hr.
Qed.

Lemma count_after_replace (b : bool) (s : jsstring) :
  count_from b (replace_from b s) = 0.
Proof.
  revert b s. apply scan_ind.
  - reflexivity.
  - intros b c1 c2 c3 c4 rest Hh IH. rewrite (replace_hit _ _ _ _ _ _ Hh).
    change (lit "Kodora" ++ replace_from true rest)
      with (ch "K" :: ch "o" :: ch "d" :: ch "o" :: ch "r" :: ch "a"
            :: replace_from true rest).
    rewrite count_miss.
    2:{ intros ? ? ? ? [= <- <- <- <-]. unfold hit.
        destruct b; reflexivity. }
    change (is_word (ch "K")) with true.
    repeat (rewrite count_miss; [|intros; reflexivity];
            match goal with
            | |- context [is_word (ch ?a)] => change (is_word (ch a)) with true
            end).
    exact IH.
  - intros b c1 s1 Hm IH. rewrite (replace_miss _ _ Hm).
    rewrite count_miss; [exact IH|]. apply no_new_hit; assumption.
Qed.

Lemma starts_with_app (needle rest : jsstring) :
  starts_with needle (needle ++ rest) = true.
Proof.
  induction needle as [|c needle IH]; simpl; auto.
  rewrite N.eqb_refl. exact IH.
Qed.

Lemma no_Bolt_no_match (b : bool) (s : jsstring) :
  includesb (lit "Bolt") s = false -> count_from b s = 0.
Proof.
  revert b; induction s as [|c1 s1 IH]; intros b H; [reflexivity|].
  cbn [includesb] in H. apply orb_false_iff in H as [Hs Hi].
  rewrite count_miss; [apply IH; exact Hi|].
  intros c2 c3 c4 rest ->.
  destruct (hit b c1 c2 c3 c4 rest) eqn:Eh; [|reflexivity].
  apply hit_inv in Eh as (_ & -> & -> & -> & -> & _).
  change (ch "B" :: ch "o" :: ch "l" :: ch "t" :: rest)
    with (lit "Bolt" ++ rest) in Hs.
  rewrite starts_with_app in Hs. discriminate.
Qed.

End BrandingFacts.

(** X17: each replacement lengthens the text by two code units: the
    length of the result is the length of the input plus twice the
    number of matches. *)
Theorem replacement_length (buf : jsstring) :
  List.length (Branding.replace_all buf)
  = List.length buf + 2 * Branding.match_count buf.
Proof. apply BrandingFacts.length_from. Qed.

(** X18: the text is left as it is exactly when the pattern has no
    match in it. *)
Theorem unchanged_iff_no_match (buf : jsstring) :
  Branding.replace_all buf = buf <-> Branding.match_count buf = 0.
Proof. apply BrandingFacts.same_from_iff. Qed.

(** X19: replacing is idempotent: the result has no match left, so a
    second replacement changes nothing. *)
Theorem replace_all_idempotent (buf : jsstring) :
  Branding.match_count (Branding.replace_all buf) = 0 /\
  Branding.replace_all (Branding.replace_all buf) = Branding.replace_all buf.
Proof.
  assert (H : Branding.match_count (Branding.replace_all buf) = 0)
    by apply BrandingFacts.count_after_replace.
  split; [exact H|]. apply BrandingFacts.same_from_iff. exact H.
Qed.

Section BrandingRun.

Variable basename : jsstring -> jsstring.

Local Abbreviation shouldSkip := (Branding.shouldSkip basename).
Local Abbreviation visit := (Branding.visit basename).
Local Abbreviation visit_all := (Branding.visit_all basename).
Local Abbreviation run := (Branding.run basename).

(** A file counts when it is not skipped and has a match. *)
Local Abbreviation counts file buf :=
  (negb (shouldSkip file) && negb (Branding.match_count buf =? 0)).

Lemma visit_spec (WRITE : bool) (file buf : jsstring) (k : Branding.counters) :
  visit WRITE file buf k
  = if counts file buf then
      (if WRITE then Branding.replace_all buf else buf,
       {| Branding.changed := Branding.changed k + Branding.match_count buf;
          Branding.filesChanged := S (Branding.filesChanged k) |})
    else (buf, k).
Proof.
  unfold Branding.visit. destruct (shouldSkip file); [reflexivity|].
  cbn [negb andb].
  destruct (includesb (lit "Bolt") buf) eqn:Ei; cbn [negb].
  2:{ unfold Branding.match_count.
      rewrite (BrandingFacts.no_Bolt_no_match false _ Ei). reflexivity. }
  destruct (JsString.eqb (Branding.replace_all buf) buf) eqn:Ee; cbn [negb].
  - apply eqb_eq, BrandingFacts.same_from_iff in Ee.
    unfold Branding.match_count. rewrite Ee. reflexivity.
  - destruct (Branding.match_count buf =? 0) eqn:Ec; [|reflexivity].
    apply Nat.eqb_eq, BrandingFacts.same_from_iff in Ec.
    unfold Branding.replace_all in Ee. rewrite Ec, eqb_refl in Ee. discriminate.
Qed.

(** X20: the cheap tests lose nothing: a file is counted, and rewritten
    under [--write], exactly when it is not skipped and the pattern has
    a match in it; the count added is the number of matches. *)
Theorem visit_counts_matches (WRITE : bool) (file buf : jsstring)
    (k : Branding.counters) :
  (shouldSkip file = false /\ Branding.match_count buf <> 0 ->
   visit WRITE file buf k
   = (if WRITE then Branding.replace_all buf else buf,
      {| Branding.changed := Branding.changed k + Branding.match_count buf;
         Branding.filesChanged := S (Branding.filesChanged k) |})) /\
  (shouldSkip file = true \/ Branding.match_count buf = 0 ->
   visit WRITE file buf k = (buf, k)).
Proof.
  rewrite visit_spec. split.
  - intros [-> Hc]. apply Nat.eqb_neq in Hc. rewrite Hc. reflexivity.
  - intros [-> | ->]; [reflexivity|]. rewrite andb_false_r. reflexivity.
Qed.

Lemma visit_all_spec (WRITE : bool) (files : list (jsstring * jsstring))
    (k : Branding.counters) :
  visit_all WRITE files k
  = (map (fun fb => (fst fb,
                     if counts (fst fb) (snd fb) && WRITE
                     then Branding.replace_all (snd fb) else snd fb)) files,
     {| Branding.changed :=
          Branding.changed k +
          list_sum (map (fun fb => if counts (fst fb) (snd fb)
                                   then Branding.match_count (snd fb) else 0) files);
        Branding.filesChanged :=
          Branding.filesChanged k +
          List.length (filter (fun fb => counts (fst fb) (snd fb)) files) |}).
Proof.
  revert k; induction files as [|[file buf] files IH]; intro k.
  - destruct k. simpl. rewrite !Nat.add_0_r. reflexivity.
  - cbn [Branding.visit_all]. rewrite visit_spec. cbn [fst snd map filter].
    destruct (counts file buf) eqn:Ec.
    + rewrite IH. cbn [Branding.changed Branding.filesChanged andb list_sum].
      apply f_equal2; [reflexivity|]. apply f_equal2; simpl; lia.
    + rewrite IH. cbn [andb list_sum]. reflexivity.
Qed.

(** X21: the totals the script prints are exact: the replacements are
    the matches in the files that are not skipped, the files changed are
    the files not skipped that have a match; in both modes. *)
Theorem totals_are_exact (WRITE : bool) (files : list (jsstring * jsstring)) :
  Branding.changed (snd (run WRITE files))
  = list_sum (map (fun fb => if shouldSkip (fst fb) then 0
                             else Branding.match_count (snd fb)) files) /\
  Branding.filesChanged (snd (run WRITE files))
  = List.length (filter (fun fb => negb (shouldSkip (fst fb)) &&
                                   negb (Branding.match_count (snd fb) =? 0)) files).
Proof.
  unfold Branding.run. rewrite visit_all_spec. cbn [snd Branding.changed
    Branding.filesChanged Nat.add]. split; [|reflexivity].
  f_equal. apply map_ext. intros [file buf]. cbn [fst snd].
  destruct (shouldSkip file); [reflexivity|]. cbn [negb andb].
  destruct (Branding.match_count buf =? 0) eqn:E; [|reflexivity].
  apply Nat.eqb_eq in E. rewrite E. reflexivity.
Qed.

(** X22: a dry run leaves every file as it is and reports the counters
    the run with [--write] reports. *)
Theorem dry_run_predicts_write (files : list (jsstring * jsstring)) :
  fst (run false files) = files /\
  snd (run false files) = snd (run true files).
Proof.
  unfold Branding.run. rewrite !visit_all_spec. cbn [fst snd]. split; [|reflexivity].
  rewrite <- (map_id files) at 2. apply map_ext. intros [file buf].
  cbn [fst snd]. rewrite andb_false_r. reflexivity.
Qed.

Lemma idle_files (WRITE : bool) (l : list (jsstring * jsstring)) :
  Forall (fun fb => counts (fst fb) (snd fb) = false) l ->
  visit_all WRITE l {| Branding.changed := 0; Branding.filesChanged := 0 |}
  = (l, {| Branding.changed := 0; Branding.filesChanged := 0 |}).
Proof.
  induction 1 as [|[file buf] l Hc _ IH]; [reflexivity|].
  cbn [Branding.visit_all]. rewrite visit_spec. cbn [fst snd] in Hc.
  rewrite Hc, IH. reflexivity.
Qed.

(** X23: after a run with [--write], a further run, in either mode,
    changes no file and reports nothing. *)
Theorem second_run_is_idle (WRITE : bool) (files : list (jsstring * jsstring)) :
  run WRITE (fst (run true files))
  = (fst (run true files),
     {| Branding.changed := 0; Branding.filesChanged := 0 |}).
Proof.
  unfold Branding.run at 2 3. rewrite visit_all_spec. cbn [fst].
  unfold Branding.run. apply idle_files.
  apply Forall_forall. intros fb Hin.
  apply in_map_iff in Hin as ([file buf] & <- & _). cbn [fst snd].
  destruct (shouldSkip file); [reflexivity|]. cbn [negb andb].
  destruct (Branding.match_count buf =? 0) eqn:Ec; cbn [negb andb].
  - rewrite Ec. reflexivity.
  - unfold Branding.match_count, Branding.replace_all.
    rewrite BrandingFacts.count_after_replace. reflexivity.
Qed.

End BrandingRun.

(** ** The synchronisation script *)

Section SyncFacts.

Import SyncUpstream.
Local Open Scope string_scope.

Local Abbreviation sound := sound_settings.

Lemma parse_keeps_sound (n : nat) :
  forall (args : list string) (s s' : settings),
    List.length args <= n ->
    sound s -> parse_flags s args = Parsed s' -> sound s'.
Proof.
  induction n as [|n IH]; intros args s s' Hlen Hs H.
  - destruct args; [|simpl in Hlen; lia]. injection H as <-. exact Hs.
  - destruct args as [|a rest]; [injection H as <-; exact Hs|].
    simpl in Hlen. cbn [parse_flags] in H.
    destruct Hs as (M1 & M2 & M3 & M4).
    destruct (String.eqb a "--commit").
    { destruct rest as [|m rest'].
      - injection H as <-. repeat split; assumption.
      - destruct (negb (String.eqb m "") && negb (String.prefix "--" m)) eqn:Em.
        + apply (IH rest' _ s') in H; auto; [simpl in Hlen; lia|].
          apply andb_true_iff in Em as [E1 E2].
          apply negb_true_iff in E1, E2. apply String.eqb_neq in E1.
          repeat split; assumption.
        + apply (IH (m :: rest') _ s') in H; auto; [lia|].
          repeat split; assumption. }
    repeat match type of H with
           | (if String.eqb a ?f then _ else _) = _ =>
               destruct (String.eqb a f);
               [ apply (IH rest _ s') in H; auto; [lia|];
                 repeat split; cbn; auto; discriminate |]
           end.
    destruct (String.eqb a "-h" || String.eqb a "--help"); discriminate.
Qed.

(** X24: whatever the arguments, when the options are accepted the
    commit message is neither empty nor of the shape [--*], the mode is
    one of pick, merge and rebase, and the verify flag is [--no-verify]
    or empty. *)
Theorem parsed_settings_are_sound (args : list string) (s : settings) :
  parse_flags defaults args = Parsed s ->
  COMMIT_MSG s <> "" /\
  String.prefix "--" (COMMIT_MSG s) = false /\
  In (MODE s) ["pick"; "merge"; "rebase"] /\
  In (NO_VERIFY_FLAG s) ["--no-verify"; ""].
Proof.
  apply (parse_keeps_sound (n := List.length args)); [lia|].
  unfold sound_settings. repeat split; cbn; auto. discriminate.
Qed.

(** X25: on Bash 4.4 and later, without [--dry-run] the cherry-pick
    loop ends the script at its first commit: the first arithmetic
    command, [((applied++))] or [((skipped++))], evaluates to 0 and
    fails under [set -e].  The script exits with status 1, one line in
    the report, no totals, the other commits untried; it runs to the
    totals only on an empty range. *)
Theorem pick_stops_at_first_commit :
  pick_mode false []
  = Completed {| report := [Totals 0 0]; applied := 0; skipped := 0 |} /\
  forall (c : commit) (rest : list commit),
    pick_mode false (c :: rest)
    = Exited 1
        (if picks_cleanly c
         then {| report := [Picked (hash c) (subject c)];
                 applied := 1; skipped := 0 |}
         else {| report := [Conflict (hash c) (subject c)];
                 applied := 0; skipped := 1 |}).
Proof.
  split; [reflexivity|]. intros c rest. unfold pick_mode.
  cbn [pick_loop]. destruct (picks_cleanly c); reflexivity.
Qed.

Lemma dry_loop (commits : list commit) (st : pick_state) :
  pick_loop true commits st
  = Completed {| report := report st ++
                           map (fun c => Would_pick (hash c) (subject c)) commits;
                 applied := applied st; skipped := skipped st |}.
Proof.
  revert st; induction commits as [|c commits IH]; intro st.
  - destruct st. simpl. rewrite app_nil_r. reflexivity.
  - cbn [pick_loop]. rewrite IH. cbn [report applied skipped map].
    rewrite <- app_assoc. reflexivity.
Qed.

(** X26: a dry run of the cherry-pick mode lists every commit of the
    range, in order, applies and skips none, and exits with status 0. *)
Theorem dry_run_lists_all (commits : list commit) :
  pick_mode true commits
  = Exited 0
      {| report := map (fun c => Would_pick (hash c) (subject c)) commits
                   ++ [Totals 0 0];
         applied := 0; skipped := 0 |}.
Proof. unfold pick_mode. rewrite dry_loop. reflexivity. Qed.

(** X27: arguments made of the options without argument are always
    accepted; [--push] and [--dry-run] take effect wherever they stand,
    and nothing is committed unless [--commit] is given. *)
Theorem plain_options_are_accepted (args : list string) (s : settings) :
  Forall (fun a => In a plain_options) args ->
  exists s',
    parse_flags s args = Parsed s' /\
    PUSH s' = PUSH s || existsb (String.eqb "--push") args /\
    DRY_RUN s' = DRY_RUN s || existsb (String.eqb "--dry-run") args /\
    DO_COMMIT s' = DO_COMMIT s /\
    COMMIT_MSG s' = COMMIT_MSG s.
Proof.
  intro H. revert s. induction H as [|a args Ha _ IH]; intro s.
  - exists s. cbn. rewrite !orb_false_r. auto.
  - unfold plain_options in Ha. cbn [In] in Ha.
    destruct Ha as [<-|[<-|[<-|[<-|[<-|[<-|[]]]]]]];
      cbn [parse_flags String.eqb Ascii.eqb Bool.eqb existsb orb];
      match goal with |- context [parse_flags ?s0 args] =>
        destruct (IH s0) as (s' & -> & Hp & Hd & Hc & Hm) end;
      exists s'; cbn [PUSH DRY_RUN DO_COMMIT COMMIT_MSG] in *;
      rewrite Hp, Hd, Hc, Hm, ?orb_true_r; auto.
Qed.

End SyncFacts.


(** ** The further properties at sample inputs *)

Lemma no_model_iff_witness :
  model (resolve (lit "describe this picture") true [named "LMStudio" 0]) = None /\
  nth_error [named "LMStudio" 0] 0
  = Some (provider (resolve (lit "describe this picture") true [named "LMStudio" 0])).
Proof.
  destruct (@no_model_iff nat ascii_toLowerCase
              (request (lit "describe this picture") true [named "LMStudio" 0]))
    as [[_ H] G].
  assert (M : model (resolve (lit "describe this picture") true [named "LMStudio" 0])
              = None).
  { apply H. repeat split.
    - discriminate.
    - intros (_ & _ & D). discriminate.
    - intros (_ & _ & D). discriminate.
    - not_active.
    - not_active. }
  split; [exact M | exact (G M)].
Defined.

Lemma provider_ignores_content_witness :
  provider (resolve (lit "```js") false [named "Ollama" 0; named "OpenAI" 1])
  = provider (resolve (lit "hello") false [named "Ollama" 0; named "OpenAI" 1]).
Proof.
  apply (@provider_ignores_content nat ascii_toLowerCase
           (request (lit "hello") false [named "Ollama" 0; named "OpenAI" 1])
           (lit "```js")).
  split; intros _; simpl; lia.
Defined.

Lemma isCodey_monotone_witness : isCodey (lit "please run f(x) for me") = true.
Proof.
  apply (@isCodey_monotone (lit "f(x)") (lit "please run f(x) for me")).
  - exists (lit "please run "), (lit " for me"). reflexivity.
  - vm_compute. reflexivity.
Defined.

Lemma resolver_never_rejects_witness :
  resolveAutoProviderModel ascii_toLowerCase
    (Returned (Some {| mod_resolveAutoProviderModel :=
                         Callable (fun _ => Threw TypeError) |}))
    (request (lit "hello") false [named "Ollama" 1])
  <> Threw TypeError.
Proof. apply resolver_never_rejects. Defined.

Lemma heuristic_throws_iff_witness :
  Runtime.chooseProviderAndModel ascii_toLowerCase
    {| Runtime.message := Some (lit "hello");
       Runtime.hasImages := false;
       Runtime.activeProviders :=
         Some [ {| Runtime.name := Some (lit "LMStudio"); Runtime.payload := Some 0 |};
                {| Runtime.name := None; Runtime.payload := Some 1 |} ] |}
  = Threw TypeError.
Proof.
  apply heuristic_throws_iff. right.
  eexists _, (lit "Ollama"). split; [reflexivity|]. split; [simpl; tauto|].
  eexists [_], _, []. split; [reflexivity|]. split; [reflexivity|].
  repeat constructor. eexists; split; [reflexivity|]. vm_compute. discriminate.
Defined.

Lemma manual_selection_is_sent_witness :
  sendMessage_text ascii_toLowerCase ascii_whitespace
    (Threw TypeError) (named "OpenAI" 1) (lit "gpt-4o")
    None (lit " hi ") false [] (Some (lit "<boltArtifact/>")) [named "LMStudio" 0]
  = Some (Returned (lit "[Model: " ++ lit "gpt-4o" ++ lit "]" ++ [10; 10]%N ++
                    lit "[Provider: " ++ name (named "OpenAI" 1) ++ lit "]"
                    ++ [10; 10]%N ++ lit "<boltArtifact/>" ++ lit " hi ")).
Proof.
  apply (@manual_selection_is_sent nat ascii_toLowerCase ascii_whitespace
           (Threw TypeError) (named "OpenAI" 1) (lit "gpt-4o")
           None (lit " hi ") (lit " hi ") []
           (Some (lit "<boltArtifact/>")) [named "LMStudio" 0]).
  - vm_compute. discriminate.
  - vm_compute. discriminate.
  - reflexivity.
Defined.

Lemma auto_is_sent_as_model_witness :
  deep_link_text ascii_toLowerCase (Threw (Thrown (lit "Cannot find module")))
    (named "Automatic" 0) (lit "auto") (Some (lit "hello"))
    [named "Mistral" 5; named "Groq" 6]
  = Some (Returned (lit "[Model: auto]" ++ [10; 10]%N ++
                    lit "[Provider: " ++ name (named "Mistral" 5) ++ lit "]"
                    ++ [10; 10]%N ++ lit "hello")).
Proof.
  apply (@auto_is_sent_as_model nat ascii_toLowerCase
           (Threw (Thrown (lit "Cannot find module")))
           (named "Automatic" 0) (named "Mistral" 5) (lit "hello")
           [named "Groq" 6]).
  - discriminate.
  - left. eexists; reflexivity.
  - rule_without_provider.
  - rule_without_provider.
  - not_active.
  - not_active.
Defined.

Lemma tagged_text_is_unambiguous_witness :
  lit "llama3.1:8b" = lit "llama3.1:8b" /\
  name (named "Ollama" 0) = name (named "Ollama" 1) /\
  lit "hello" = lit "hello".
Proof.
  apply (@tagged_text_is_unambiguous nat
           (lit "llama3.1:8b") (lit "llama3.1:8b") (lit "auto") (lit "gpt-4o")
           (lit "hello") (lit "hello") (named "Ollama" 0) (named "Ollama" 1));
    try reflexivity;
    vm_compute; intuition discriminate.
Defined.

Lemma automatic_sticks_witness :
  let final :=
    fold_left (@handle nat) [ProviderChosen (named "OpenAI" 1)]
      (handleProviderChange sample_selection (named "Automatic" 0)) in
  selectedModel final = lit "auto" /\
  automatic (selectedProvider final) (selectedModel final) = true /\
  initial_model (lit "claude-3-5-sonnet-latest") (jar final) = lit "auto".
Proof.
  apply automatic_sticks.
  - reflexivity.
  - intros m [D|[]]. discriminate.
Defined.

Lemma reload_restores_provider_witness :
  name (initial_provider (named "Anthropic" 0)
          [named "Anthropic" 0; named "OpenAI" 1]
          (jar (handleProviderChange sample_selection (named "OpenAI" 1))))
  = name (named "OpenAI" 1).
Proof.
  apply (@reload_restores_provider nat (named "Anthropic" 0)
           [named "Anthropic" 0; named "OpenAI" 1]
           sample_selection (named "OpenAI" 1)).
  - reflexivity.
  - simpl. tauto.
Defined.

Lemma visit_counts_matches_witness :
  Branding.visit (fun file => file) true (lit "README.md") (lit "Bolt is here")
    {| Branding.changed := 0; Branding.filesChanged := 0 |}
  = (Branding.replace_all (lit "Bolt is here"),
     {| Branding.changed := 0 + Branding.match_count (lit "Bolt is here");
        Branding.filesChanged := 1 |}).
Proof.
  apply (@visit_counts_matches (fun file => file) true
           (lit "README.md") (lit "Bolt is here")).
  split; [reflexivity | vm_compute; discriminate].
Defined.

Lemma parsed_settings_are_sound_witness :
  sound_settings
    {| SyncUpstream.NO_VERIFY_FLAG := "--no-verify";
       SyncUpstream.PUSH := false;
       SyncUpstream.DO_COMMIT := true;
       SyncUpstream.COMMIT_MSG := "wip";
       SyncUpstream.MODE := "merge";
       SyncUpstream.DRY_RUN := false |}.
Proof.
  apply (@parsed_settings_are_sound ["--commit"; "wip"; "--merge"]%string).
  reflexivity.
Defined.

Lemma plain_options_are_accepted_witness :
  exists s',
    SyncUpstream.parse_flags SyncUpstream.defaults
      ["--dry-run"; "--rebase"; "--push"]%string = SyncUpstream.Parsed s' /\
    SyncUpstream.PUSH s' = true /\
    SyncUpstream.DRY_RUN s' = true /\
    SyncUpstream.DO_COMMIT s' = false /\
    SyncUpstream.COMMIT_MSG s' = "chore(sync): local changes"%string.
Proof.
  apply (@plain_options_are_accepted
           ["--dry-run"; "--rebase"; "--push"]%string SyncUpstream.defaults).
  repeat constructor; simpl; tauto.
Defined.

Lemma reload_restores_model_witness :
  initial_model (lit "claude-3-5-sonnet-latest")
    (jar (fold_left (@handle nat)
            ([ProviderChosen (named "OpenAI" 1)]
             ++ ModelChosen nat (lit "gpt-4o-mini")
             :: [ProviderChosen (named "Ollama" 2)])
            sample_selection))
  = lit "gpt-4o-mini".
Proof.
  apply (@reload_restores_model nat (lit "claude-3-5-sonnet-latest")
           sample_selection [ProviderChosen (named "OpenAI" 1)]
           [ProviderChosen (named "Ollama" 2)] (lit "gpt-4o-mini")).
  reflexivity.
Defined.

(** A model with a lone surrogate is set but not saved: a reload starts
    from the model saved before. *)
Example ill_formed_model_is_not_saved :
  selectedModel (handleModelChange
                   (handleModelChange sample_selection (lit "gpt-4o-mini"))
                   [55357%N])
  = [55357%N] /\
  initial_model (lit "claude-3-5-sonnet-latest")
    (jar (handleModelChange
            (handleModelChange sample_selection (lit "gpt-4o-mini"))
            [55357%N]))
  = lit "gpt-4o-mini".
Proof. split; reflexivity. Qed.
